(** * A 2D camera with position, zoom and rotation boundaries

    Shallow embedding of [src/camera.ts].  A JavaScript [number] is read as a
    real number: every arithmetic operation is the exact one, comparisons are
    the order of the reals, and [Math.PI] is [PI].  Rounding, infinities and
    NaN are outside this model.  Methods of the [Camera] class take the
    receiver as their last argument and return the updated receiver; the
    observer is the log of the notifications it has received. *)

From Stdlib Require Import Reals Lra Psatz List Bool ZArith String.
Import ListNotations.
Open Scope R_scope.

(** ** JavaScript numbers over the reals *)

Module Num.

Definition ltb (a b : R) : bool := if Rlt_dec a b then true else false.
Definition leb (a b : R) : bool := if Rle_dec a b then true else false.
Definition gtb (a b : R) : bool := ltb b a.
Definition geb (a b : R) : bool := leb b a.
Definition eqb (a b : R) : bool := if Req_dec_T a b then true else false.

(** Rounding towards zero, the quotient that the [%] operator uses. *)
Definition trunc (a : R) : R :=
  if Rle_dec 0 a then IZR (Int_part a) else - IZR (Int_part (- a)).

(** [a % b]: the remainder has the sign of the dividend. *)
Definition rem (a b : R) : R := a - b * trunc (a / b).

End Num.

Infix "<?" := Num.ltb (at level 70, no associativity) : R_scope.
Infix "<=?" := Num.leb (at level 70, no associativity) : R_scope.
Infix ">?" := Num.gtb (at level 70, no associativity) : R_scope.
Infix ">=?" := Num.geb (at level 70, no associativity) : R_scope.
Infix "=?" := Num.eqb (at level 70, no associativity) : R_scope.
Infix "%%" := Num.rem (at level 40, left associativity) : R_scope.

(** ** Points and the vector primitives *)

Record Point : Type := mkPoint { x : R; y : R }.

Module Vector.

(** Modelled from the spec: [vectorAddition] of [vector.ts], which is not
    among the sources; the spec lists it as "vector add". *)
Definition vectorAddition (a b : Point) : Point :=
  {| x := x a + x b; y := y a + y b |}.

(** Modelled from the spec: [vectorSubtraction] of [vector.ts], "vector
    subtract". *)
Definition vectorSubtraction (a b : Point) : Point :=
  {| x := x a - x b; y := y a - y b |}.

(** Modelled from the spec: [multiplyByScalar] of [vector.ts], "scalar
    multiply". *)
Definition multiplyByScalar (a : Point) (scalar : R) : Point :=
  {| x := x a * scalar; y := y a * scalar |}.

(** Modelled from the spec: [rotateVector] of [vector.ts], "vector rotation by
    angle": the counter-clockwise rotation about the origin. *)
Definition rotateVector (a : Point) (angle : R) : Point :=
  {| x := x a * cos angle - y a * sin angle;
     y := x a * sin angle + y a * cos angle |}.

(** Modelled from the spec: [dotProduct] of [vector.ts], "dot product". *)
Definition dotProduct (a b : Point) : R := x a * x b + y a * y b.

(** The tagged result of the segment-segment intersection: [intersects], "and
    when true, an intersection of kind point or degenerate interval with
    distinguishable endpoints". *)
Inductive Intersections : Type :=
| pointIntersection (intersectionPoint : Point)
| intervalIntersection (intervalStartPoint intervalEndPoint : Point).

Record IntersectionResult : Type := mkResult {
  intersects : bool;
  intersections : option Intersections
}.

(** The third component of the cross product of two plane vectors. *)
Definition cross (a b : Point) : R := x a * y b - y a * x b.

(** [p] lies on the closed segment from [a] to [b]: on its line and inside
    its bounding box. *)
Definition onSegment (p a b : Point) : bool :=
  (cross (vectorSubtraction p a) (vectorSubtraction b a) =? 0)
  && (Rmin (x a) (x b) <=? x p) && (x p <=? Rmax (x a) (x b))
  && (Rmin (y a) (y b) <=? y p) && (y p <=? Rmax (y a) (y b)).

(** Modelled from the spec: [getLineSegmentIntersection] of [vector.ts], which
    is not among the sources: "segment-segment intersection returning a tagged
    result".  Two segments that are not parallel meet in at most the point of
    parameters [t] and [u]; parallel or degenerate segments share an interval
    whose end points are end points of the segments. *)
Definition getLineSegmentIntersection
    (startPoint endPoint startPoint2 endPoint2 : Point) : IntersectionResult :=
  let r := vectorSubtraction endPoint startPoint in
  let s := vectorSubtraction endPoint2 startPoint2 in
  let qp := vectorSubtraction startPoint2 startPoint in
  let denominator := cross r s in
  if denominator =? 0
  then
    let shared :=
      filter (fun p => onSegment p startPoint endPoint
                       && onSegment p startPoint2 endPoint2)
        [startPoint2; endPoint2; startPoint; endPoint] in
    match shared with
    | [] => {| intersects := false; intersections := None |}
    | p :: rest =>
        {| intersects := true;
           intersections := Some (intervalIntersection p (last rest p)) |}
    end
  else
    let t := cross qp s / denominator in
    let u := cross qp r / denominator in
    if (0 <=? t) && (t <=? 1) && (0 <=? u) && (u <=? 1)
    then {| intersects := true;
            intersections :=
              Some (pointIntersection (vectorAddition startPoint (multiplyByScalar r t))) |}
    else {| intersects := false; intersections := None |}.

End Vector.
Import Vector.

(** ** Boundary types *)

Record PositionBoundary : Type := mkPositionBoundary {
  pb_min : Point;
  pb_max : Point
}.

Record ZoomLevelBoundary : Type := mkZoomLevelBoundary {
  zb_min : R;
  zb_max : R
}.

Record RotationBoundary : Type := mkRotationBoundary {
  rb_start : R;
  rb_end : R;
  positiveDirection : bool;
  startForTieBreak : bool
}.

(** ** Free functions of [camera.ts] *)

Definition withinPositionBoundary (destination : Point)
    (positionBoundary : PositionBoundary) : bool :=
  if (x destination >? x (pb_max positionBoundary))
     || (x destination <? x (pb_min positionBoundary))
  then false
  else if (y destination >? y (pb_max positionBoundary))
          || (y destination <? y (pb_min positionBoundary))
  then false
  else true.

Definition simpleClamping (destination : Point)
    (positionBoundary : PositionBoundary) : Point :=
  if withinPositionBoundary destination positionBoundary then destination
  else
    let res := destination in
    let res := {| x := Rmin (x res) (x (pb_max positionBoundary)); y := y res |} in
    let res := {| x := Rmax (x res) (x (pb_min positionBoundary)); y := y res |} in
    let res := {| x := x res; y := Rmin (y res) (y (pb_max positionBoundary)) |} in
    let res := {| x := x res; y := Rmax (y res) (y (pb_min positionBoundary)) |} in
    res.

Definition transformViewPort2WorldSpaceWithCameraAttributes (point cameraPosition : Point)
    (cameraZoomLevel cameraRotation : R) : Point :=
  let scaledBack := multiplyByScalar point (1 / cameraZoomLevel) in
  let rotatedBack := rotateVector scaledBack cameraRotation in
  let withOffset := vectorAddition rotatedBack cameraPosition in
  withOffset.

Definition viewPortWithinPositionBoundary (viewPortWidth viewPortHeight : R)
    (cameraPosition : Point) (cameraZoomLevel cameraRotation : R)
    (positionBoundary : PositionBoundary) : bool :=
  let topLeftCorner := {| x := - viewPortWidth / 2; y := viewPortHeight / 2 |} in
  let topRightCorner := {| x := viewPortWidth / 2; y := viewPortHeight / 2 |} in
  let bottomLeftCorner := {| x := - viewPortWidth / 2; y := - viewPortHeight / 2 |} in
  let bottomRightCorner := {| x := viewPortWidth / 2; y := - viewPortHeight / 2 |} in
  let topLeftCornerTransformed :=
    transformViewPort2WorldSpaceWithCameraAttributes topLeftCorner cameraPosition cameraZoomLevel cameraRotation in
  let topRightCornerTransformed :=
    transformViewPort2WorldSpaceWithCameraAttributes topRightCorner cameraPosition cameraZoomLevel cameraRotation in
  let bottomLeftCornerTransformed :=
    transformViewPort2WorldSpaceWithCameraAttributes bottomLeftCorner cameraPosition cameraZoomLevel cameraRotation in
  let bottomRightCornerTransformed :=
    transformViewPort2WorldSpaceWithCameraAttributes bottomRightCorner cameraPosition cameraZoomLevel cameraRotation in
  withinPositionBoundary topLeftCornerTransformed positionBoundary
  && withinPositionBoundary topRightCornerTransformed positionBoundary
  && withinPositionBoundary bottomLeftCornerTransformed positionBoundary
  && withinPositionBoundary bottomRightCornerTransformed positionBoundary.

Definition withinZoomLevelBoundary (zoomLevel : R)
    (zoomLevelBoundary : ZoomLevelBoundary) : bool :=
  (zoomLevel <=? zb_max zoomLevelBoundary) && (zoomLevel >=? zb_min zoomLevelBoundary).

Definition getMinZoomLevel (viewPortWidth viewPortHeight : R)
    (positionBoundary : PositionBoundary) : R :=
  let minZoomLevelBasedOnWidth :=
    viewPortWidth / (x (pb_max positionBoundary) - x (pb_min positionBoundary)) in
  let minZoomLevelBasedOnHeight :=
    viewPortHeight / (y (pb_max positionBoundary) - y (pb_min positionBoundary)) in
  if minZoomLevelBasedOnWidth >? minZoomLevelBasedOnHeight
  then minZoomLevelBasedOnWidth else minZoomLevelBasedOnHeight.

Definition normalizeAngle (angle : R) : R :=
  let normalizedAngle := angle in
  let normalizedAngle := normalizedAngle %% (2 * PI) in
  if normalizedAngle >=? 0 then normalizedAngle
  else normalizedAngle + PI * 2.

Definition angleSpan (from to : R) : R :=
  let normalizedFrom := normalizeAngle from in
  let normalizedTo := normalizeAngle to in
  let diff := normalizedTo - normalizedFrom in
  if Rabs diff <=? PI then diff
  else diff - PI * 2.

Definition rotationWithinBoundary (rotation : R)
    (rotationBoundary : RotationBoundary) : bool :=
  let normalizedRotation := normalizeAngle rotation in
  let angleFromStart := normalizedRotation - rb_start rotationBoundary in
  let angleFromStart :=
    if angleFromStart <? 0 then angleFromStart + PI * 2 else angleFromStart in
  let angleFromStart :=
    if negb (positiveDirection rotationBoundary) && (angleFromStart >? 0)
    then PI * 2 - angleFromStart else angleFromStart in
  let angleRange := rb_end rotationBoundary - rb_start rotationBoundary in
  let angleRange :=
    if angleRange <? 0 then angleRange + PI * 2 else angleRange in
  let angleRange :=
    if negb (positiveDirection rotationBoundary) && (angleRange >? 0)
    then PI * 2 - angleRange else angleRange in
  angleRange >=? angleFromStart.

Definition clampRotation (rotation : R) (rotationBoundary : RotationBoundary) : R :=
  if rotationWithinBoundary rotation rotationBoundary then rotation
  else
    let angleFromStart := angleSpan (rb_start rotationBoundary) rotation in
    let angleFromEnd := angleSpan (rb_end rotationBoundary) rotation in
    if Rabs angleFromStart <? Rabs angleFromEnd then rb_start rotationBoundary
    else if (Rabs angleFromStart =? Rabs angleFromEnd)
            && startForTieBreak rotationBoundary
    then rb_start rotationBoundary
    else rb_end rotationBoundary.

(** ** The line-intersection clamp *)

Inductive Exception : Type :=
| Error (message : String.string).

Section ClampingV2.

(** [getLineSegmentIntersection] of [vector.ts] is not among the sources:
    [clampingV2] is defined for any function of its type. *)
Variable getLineSegmentIntersection :
  Point -> Point -> Point -> Point -> IntersectionResult.

(** A [throw] is the left injection.  [intersections] is read only when
    [intersects] holds; reading a property of an absent [intersections] raises
    a [TypeError].  The [default] branch of the [switch] has no counterpart:
    the two kinds are the two constructors of [Intersections]. *)
Definition clampingV2 (origin destination : Point)
    (positionBoundary : PositionBoundary) : Exception + Point :=
  if withinPositionBoundary destination positionBoundary then inr destination
  else
    let topRight := {| x := x (pb_max positionBoundary); y := y (pb_max positionBoundary) |} in
    let bottomRight := {| x := x (pb_max positionBoundary); y := y (pb_min positionBoundary) |} in
    let topLeft := {| x := x (pb_min positionBoundary); y := y (pb_max positionBoundary) |} in
    let bottomLeft := {| x := x (pb_min positionBoundary); y := y (pb_min positionBoundary) |} in
    let surpassedTop := y destination >? y topLeft in
    let surpassedRight := x destination >? x topRight in
    let surpassedBottom := y destination <? y bottomRight in
    let surpassedLeft := x destination <? x bottomLeft in
    if surpassedTop && surpassedRight then inr topRight
    else if surpassedTop && surpassedLeft then inr topLeft
    else if surpassedBottom && surpassedRight then inr bottomRight
    else if surpassedBottom && surpassedLeft then inr bottomLeft
    else
      let (boundaryStart, boundaryEnd) :=
        if surpassedTop then (topLeft, topRight)
        else if surpassedBottom then (bottomLeft, bottomRight)
        else if surpassedLeft then (bottomLeft, topLeft)
        else (bottomRight, topRight) in
      let res := getLineSegmentIntersection origin destination boundaryStart boundaryEnd in
      if negb (intersects res)
      then inl (Error "should have intersection but cannot calculate one"%string)
      else
        match intersections res with
        | Some (pointIntersection intersectionPoint) => inr intersectionPoint
        | Some (intervalIntersection _ intervalEndPoint) => inr intervalEndPoint
        | None => inl (Error "TypeError: cannot read properties of undefined"%string)
        end.

End ClampingV2.

(** ** The whole-viewport clamp *)

(** The variables that the [forEach] callback of [clampingEntireViewPort]
    updates.  [delta] is not a field: it is the same object as [diffs[0]], so
    it is read as, and assigned through, the first element of [diffs]. *)
Record ClampLoop : Type := mkClampLoop {
  diffs : list Point;
  maxXDiff : R;
  maxYDiff : R
}.

Definition diffAt (index : nat) (st : ClampLoop) : Point :=
  nth index (diffs st) {| x := 0; y := 0 |}.

Definition delta (st : ClampLoop) : Point := diffAt 0 st.

Definition assign_delta_x (v : R) (st : ClampLoop) : ClampLoop :=
  match diffs st with
  | d :: rest => {| diffs := {| x := v; y := y d |} :: rest;
                    maxXDiff := maxXDiff st; maxYDiff := maxYDiff st |}
  | [] => st
  end.

Definition assign_delta_y (v : R) (st : ClampLoop) : ClampLoop :=
  match diffs st with
  | d :: rest => {| diffs := {| x := x d; y := v |} :: rest;
                    maxXDiff := maxXDiff st; maxYDiff := maxYDiff st |}
  | [] => st
  end.

Definition assign_maxXDiff (v : R) (st : ClampLoop) : ClampLoop :=
  {| diffs := diffs st; maxXDiff := v; maxYDiff := maxYDiff st |}.

Definition assign_maxYDiff (v : R) (st : ClampLoop) : ClampLoop :=
  {| diffs := diffs st; maxXDiff := maxXDiff st; maxYDiff := v |}.

(** The callback at the element of index [index]; [diff] is read from the
    array each time, as the object it is. *)
Definition forEach_callback (st : ClampLoop) (index : nat) : ClampLoop :=
  let st :=
    if Rabs (x (diffAt index st)) >? maxXDiff st
    then
      let st := assign_maxXDiff (Rabs (x (diffAt index st))) st in
      assign_delta_x (x (diffAt index st)) st
    else st in
  let st :=
    if Rabs (y (diffAt index st)) >? maxYDiff st
    then
      let st := assign_maxYDiff (Rabs (y (diffAt index st))) st in
      assign_delta_y (y (diffAt index st)) st
    else st in
  st.

Definition clampingEntireViewPort (viewPortWidth viewPortHeight : R)
    (targetCameraPosition : Point) (cameraRotation cameraZoomLevel : R)
    (positionBoundary : PositionBoundary) : Point :=
  let topLeftCorner := {| x := - viewPortWidth / 2; y := viewPortHeight / 2 |} in
  let topRightCorner := {| x := viewPortWidth / 2; y := viewPortHeight / 2 |} in
  let bottomLeftCorner := {| x := - viewPortWidth / 2; y := - viewPortHeight / 2 |} in
  let bottomRightCorner := {| x := viewPortWidth / 2; y := - viewPortHeight / 2 |} in
  let topLeftCornerTransformed :=
    transformViewPort2WorldSpaceWithCameraAttributes topLeftCorner targetCameraPosition cameraZoomLevel cameraRotation in
  let topRightCornerTransformed :=
    transformViewPort2WorldSpaceWithCameraAttributes topRightCorner targetCameraPosition cameraZoomLevel cameraRotation in
  let bottomLeftCornerTransformed :=
    transformViewPort2WorldSpaceWithCameraAttributes bottomLeftCorner targetCameraPosition cameraZoomLevel cameraRotation in
  let bottomRightCornerTransformed :=
    transformViewPort2WorldSpaceWithCameraAttributes bottomRightCorner targetCameraPosition cameraZoomLevel cameraRotation in
  if withinPositionBoundary topLeftCornerTransformed positionBoundary
     && withinPositionBoundary topRightCornerTransformed positionBoundary
     && withinPositionBoundary bottomLeftCornerTransformed positionBoundary
     && withinPositionBoundary bottomRightCornerTransformed positionBoundary
  then targetCameraPosition
  else
    let topLeftCornerClamped := simpleClamping topLeftCornerTransformed positionBoundary in
    let topRightCornerClamped := simpleClamping topRightCornerTransformed positionBoundary in
    let bottomLeftCornerClamped := simpleClamping bottomLeftCornerTransformed positionBoundary in
    let bottomRightCornerClamped := simpleClamping bottomRightCornerTransformed positionBoundary in
    let topLeftCornerDelta := vectorSubtraction topLeftCornerClamped topLeftCornerTransformed in
    let topRightCornerDelta := vectorSubtraction topRightCornerClamped topRightCornerTransformed in
    let bottomLeftCornerDelta := vectorSubtraction bottomLeftCornerClamped bottomLeftCornerTransformed in
    let bottomRightCornerDelta := vectorSubtraction bottomRightCornerClamped bottomRightCornerTransformed in
    let diffs0 := [topLeftCornerDelta; topRightCornerDelta; bottomLeftCornerDelta; bottomRightCornerDelta] in
    let st := {| diffs := diffs0;
                 maxXDiff := Rabs (x (nth 0 diffs0 {| x := 0; y := 0 |}));
                 maxYDiff := Rabs (y (nth 0 diffs0 {| x := 0; y := 0 |})) |} in
    let st := fold_left forEach_callback (seq 0 (List.length diffs0)) st in
    vectorAddition (delta st) targetCameraPosition.

(** ** The observer *)

Module Observer.

(** The snapshot [{position, zoomLevel, rotation}] passed with a
    notification. *)
Record CameraState : Type := mkCameraState {
  position : Point;
  zoomLevel : R;
  rotation : R
}.

Inductive Notification : Type :=
| pan (origin destination : Point) (state : CameraState)
| zoom (origin destination : R) (state : CameraState)
| rotate (origin destination : R) (state : CameraState).

(** Modelled from the spec: [CameraObserver] of [camera-observer.ts], which is
    not among the sources; it "receives pan/zoom/rotate notifications", and is
    kept as the list of those received, oldest first. *)
Definition CameraObserver : Type := list Notification.

Definition notifyPan (origin destination : Point) (state : CameraState)
    (this : CameraObserver) : CameraObserver :=
  this ++ [pan origin destination state].

Definition notifyZoom (origin destination : R) (state : CameraState)
    (this : CameraObserver) : CameraObserver :=
  this ++ [zoom origin destination state].

Definition notifyRotate (origin destination : R) (state : CameraState)
    (this : CameraObserver) : CameraObserver :=
  this ++ [rotate origin destination state].

End Observer.

(** ** The camera *)

Record Camera : Type := mkCamera {
  _position : Point;
  _zoomLevel : R;
  _rotation : R;
  _positionBoundary : PositionBoundary;
  _zoomLevelBoundary : ZoomLevelBoundary;
  _rotationBoundary : option RotationBoundary;
  viewPortWidth : R;
  viewPortHeight : R;
  limitEntireViewPort : bool;
  _cameraObserver : Observer.CameraObserver
}.

Definition with_position (v : Point) (this : Camera) : Camera :=
  mkCamera v (_zoomLevel this) (_rotation this) (_positionBoundary this)
    (_zoomLevelBoundary this) (_rotationBoundary this) (viewPortWidth this)
    (viewPortHeight this) (limitEntireViewPort this) (_cameraObserver this).

Definition with_zoomLevel (v : R) (this : Camera) : Camera :=
  mkCamera (_position this) v (_rotation this) (_positionBoundary this)
    (_zoomLevelBoundary this) (_rotationBoundary this) (viewPortWidth this)
    (viewPortHeight this) (limitEntireViewPort this) (_cameraObserver this).

Definition with_rotation (v : R) (this : Camera) : Camera :=
  mkCamera (_position this) (_zoomLevel this) v (_positionBoundary this)
    (_zoomLevelBoundary this) (_rotationBoundary this) (viewPortWidth this)
    (viewPortHeight this) (limitEntireViewPort this) (_cameraObserver this).

Definition with_zoomLevelBoundary (v : ZoomLevelBoundary) (this : Camera) : Camera :=
  mkCamera (_position this) (_zoomLevel this) (_rotation this) (_positionBoundary this)
    v (_rotationBoundary this) (viewPortWidth this)
    (viewPortHeight this) (limitEntireViewPort this) (_cameraObserver this).

Definition with_rotationBoundary (v : option RotationBoundary) (this : Camera) : Camera :=
  mkCamera (_position this) (_zoomLevel this) (_rotation this) (_positionBoundary this)
    (_zoomLevelBoundary this) v (viewPortWidth this)
    (viewPortHeight this) (limitEntireViewPort this) (_cameraObserver this).

Definition with_limitEntireViewPort (v : bool) (this : Camera) : Camera :=
  mkCamera (_position this) (_zoomLevel this) (_rotation this) (_positionBoundary this)
    (_zoomLevelBoundary this) (_rotationBoundary this) (viewPortWidth this)
    (viewPortHeight this) v (_cameraObserver this).

Definition with_cameraObserver (v : Observer.CameraObserver) (this : Camera) : Camera :=
  mkCamera (_position this) (_zoomLevel this) (_rotation this) (_positionBoundary this)
    (_zoomLevelBoundary this) (_rotationBoundary this) (viewPortWidth this)
    (viewPortHeight this) (limitEntireViewPort this) v.

(** The snapshot of the camera handed to the observer. *)
Definition snapshot (this : Camera) : Observer.CameraState :=
  {| Observer.position := _position this;
     Observer.zoomLevel := _zoomLevel this;
     Observer.rotation := _rotation this |}.

(** An omitted argument of the constructor is [None] and takes its default. *)
Definition constructor (viewPortWidth viewPortHeight : option R)
    (positionBoundary : option PositionBoundary)
    (zoomLevelBoundary : option ZoomLevelBoundary) : Camera :=
  let viewPortWidth := match viewPortWidth with Some v => v | None => 500 end in
  let viewPortHeight := match viewPortHeight with Some v => v | None => 500 end in
  let positionBoundary :=
    match positionBoundary with
    | Some v => v
    | None => {| pb_min := {| x := -1000; y := -1000 |};
                 pb_max := {| x := 1000; y := 1000 |} |}
    end in
  let zoomLevelBoundary :=
    match zoomLevelBoundary with
    | Some v => v
    | None => {| zb_min := 1 / 10; zb_max := 10 |}
    end in
  {| _position := {| x := 0; y := 0 |};
     _zoomLevel := 1;
     _rotation := 0;
     _positionBoundary := positionBoundary;
     _zoomLevelBoundary := zoomLevelBoundary;
     _rotationBoundary := None;
     viewPortHeight := viewPortHeight;
     viewPortWidth := viewPortWidth;
     limitEntireViewPort := false;
     _cameraObserver := [] |}.

Definition positionBoundary (this : Camera) : PositionBoundary := _positionBoundary this.

Definition zoomLevelBoundary (this : Camera) : ZoomLevelBoundary := _zoomLevelBoundary this.

Definition set_zoomLevelBoundary (zoomLevelBoundary : ZoomLevelBoundary)
    (this : Camera) : Camera :=
  let zoomLevelBoundary :=
    if zb_min zoomLevelBoundary >? zb_max zoomLevelBoundary
    then
      let temp := zb_min zoomLevelBoundary in
      {| zb_min := zb_max zoomLevelBoundary; zb_max := temp |}
    else zoomLevelBoundary in
  with_zoomLevelBoundary zoomLevelBoundary this.

(** The setter builds [validatedRotationBoundary] and then stores its
    argument. *)
Definition set_rotationBoundary (rotationBoundary : RotationBoundary)
    (this : Camera) : Camera :=
  let validatedRotationBoundary := rotationBoundary in
  let validatedRotationBoundary :=
    if (rb_start rotationBoundary >? PI * 2) || (rb_start rotationBoundary <? 0)
    then {| rb_start := normalizeAngle (rb_start rotationBoundary);
            rb_end := rb_end validatedRotationBoundary;
            positiveDirection := positiveDirection validatedRotationBoundary;
            startForTieBreak := startForTieBreak validatedRotationBoundary |}
    else validatedRotationBoundary in
  let validatedRotationBoundary :=
    if (rb_end rotationBoundary >? PI * 2) || (rb_end rotationBoundary <? 0)
    then {| rb_start := rb_start validatedRotationBoundary;
            rb_end := normalizeAngle (rb_end rotationBoundary);
            positiveDirection := positiveDirection validatedRotationBoundary;
            startForTieBreak := startForTieBreak validatedRotationBoundary |}
    else validatedRotationBoundary in
  with_rotationBoundary (Some rotationBoundary) this.

Definition position (this : Camera) : Point := _position this.

Definition zoomLevel (this : Camera) : R := _zoomLevel this.

Definition rotation (this : Camera) : R := _rotation this.

Definition setPosition (destination : Point) (this : Camera) : Camera :=
  if limitEntireViewPort this
     && negb (viewPortWithinPositionBoundary (viewPortWidth this) (viewPortHeight this)
                destination (_zoomLevel this) (_rotation this) (_positionBoundary this))
  then this
  else if negb (withinPositionBoundary destination (_positionBoundary this))
  then this
  else
    let origin := _position this in
    let this := with_position destination this in
    with_cameraObserver
      (Observer.notifyPan origin (_position this) (snapshot this) (_cameraObserver this))
      this.

Definition setPositionBy (offset : Point) (this : Camera) : Camera :=
  let destination := vectorAddition (_position this) offset in
  if limitEntireViewPort this
  then
    setPosition
      (clampingEntireViewPort (viewPortWidth this) (viewPortHeight this) destination
         (_rotation this) (_zoomLevel this) (_positionBoundary this))
      this
  else
    let clampedDestination := simpleClamping destination (_positionBoundary this) in
    setPosition clampedDestination this.

Definition setZoomLevel (targetZoom : R) (this : Camera) : Camera :=
  if negb (withinZoomLevelBoundary targetZoom (_zoomLevelBoundary this))
  then this
  else
    let origin := _zoomLevel this in
    let this := with_zoomLevel targetZoom this in
    with_cameraObserver
      (Observer.notifyZoom origin (_zoomLevel this) (snapshot this) (_cameraObserver this))
      this.

Definition setZoomLevelBy (deltaZoomLevel : R) (this : Camera) : Camera :=
  setZoomLevel (_zoomLevel this + deltaZoomLevel) this.

Definition setRotation (rotation : R) (this : Camera) : Camera :=
  match _rotationBoundary this with
  | Some rotationBoundary =>
      if negb (rotationWithinBoundary rotation rotationBoundary) then this
      else
        let origin := _rotation this in
        let this := with_rotation (normalizeAngle rotation) this in
        with_cameraObserver
          (Observer.notifyRotate origin (_rotation this) (snapshot this) (_cameraObserver this))
          this
  | None =>
      let origin := _rotation this in
      let this := with_rotation (normalizeAngle rotation) this in
      with_cameraObserver
        (Observer.notifyRotate origin (_rotation this) (snapshot this) (_cameraObserver this))
        this
  end.

Definition setRotationBy (deltaRotation : R) (this : Camera) : Camera :=
  let targetAngle := normalizeAngle (_rotation this + deltaRotation) in
  let targetAngle :=
    match _rotationBoundary this with
    | Some rotationBoundary => clampRotation targetAngle rotationBoundary
    | None => targetAngle
    end in
  setRotation targetAngle this.

Definition transformViewPort2WorldSpace (point : Point) (this : Camera) : Point :=
  transformViewPort2WorldSpaceWithCameraAttributes point (_position this)
    (_zoomLevel this) (_rotation this).

Definition transformWorldSpace2ViewPort (point : Point) (this : Camera) : Point :=
  let withOffset := vectorSubtraction point (_position this) in
  let scaled := multiplyByScalar withOffset (_zoomLevel this) in
  let rotated := rotateVector scaled (- _rotation this) in
  rotated.

Definition transformVector2WorldSpace (vector : Point) (this : Camera) : Point :=
  rotateVector (multiplyByScalar vector (1 / _zoomLevel this)) (_rotation this).

(** ** Specification vocabulary *)

(** [p] lies in the closed rectangle of [b]. *)
Definition Inside (p : Point) (b : PositionBoundary) : Prop :=
  x (pb_min b) <= x p <= x (pb_max b) /\ y (pb_min b) <= y p <= y (pb_max b).

(** The four corners of the viewport, in viewport space. *)
Definition viewPortCorners (w h : R) : list Point :=
  [ {| x := - w / 2; y := h / 2 |}; {| x := w / 2; y := h / 2 |};
    {| x := - w / 2; y := - h / 2 |}; {| x := w / 2; y := - h / 2 |} ].

(** [p] is a point of the closed segment from [a] to [b]. *)
Definition OnSegment (p a b : Point) : Prop :=
  exists t : R, 0 <= t <= 1 /\
    p = vectorAddition a (multiplyByScalar (vectorSubtraction b a) t).

(** What [clampingV2] asks of the segment-segment intersection it is given. *)
Class SegmentIntersection
    (f : Point -> Point -> Point -> Point -> IntersectionResult) : Prop := {
  intersection_complete : forall a b c d p,
    OnSegment p a b -> OnSegment p c d -> intersects (f a b c d) = true;
  intersection_tagged : forall a b c d,
    intersects (f a b c d) = true -> intersections (f a b c d) <> None;
  intersection_point : forall a b c d p,
    intersections (f a b c d) = Some (pointIntersection p) ->
    OnSegment p a b /\ OnSegment p c d;
  intersection_interval : forall a b c d p q,
    intersections (f a b c d) = Some (intervalIntersection p q) ->
    OnSegment q a b /\ OnSegment q c d
}.

(** The point that an intersection result hands to [clampingV2]. *)
Definition reported (res : IntersectionResult) (p : Point) : Prop :=
  intersections res = Some (pointIntersection p)
  \/ exists q, intersections res = Some (intervalIntersection q p).

Inductive Mutator : Type :=
| SetPosition (destination : Point)
| SetZoomLevel (targetZoom : R)
| SetRotation (rotation : R).

Definition call (m : Mutator) (this : Camera) : Camera :=
  match m with
  | SetPosition destination => setPosition destination this
  | SetZoomLevel targetZoom => setZoomLevel targetZoom this
  | SetRotation rotation => setRotation rotation this
  end.

(** The target of the call is outside the boundary that the camera enforces
    for it. *)
Definition Violates (m : Mutator) (this : Camera) : Prop :=
  match m with
  | SetPosition destination =>
      (limitEntireViewPort this = true /\
       exists corner,
         In corner (viewPortCorners (viewPortWidth this) (viewPortHeight this)) /\
         ~ Inside (transformViewPort2WorldSpaceWithCameraAttributes corner destination
                     (zoomLevel this) (rotation this)) (positionBoundary this))
      \/ ~ Inside destination (positionBoundary this)
  | SetZoomLevel targetZoom =>
      ~ (zb_min (zoomLevelBoundary this) <= targetZoom <= zb_max (zoomLevelBoundary this))
  | SetRotation rotation =>
      exists b, _rotationBoundary this = Some b /\ rotationWithinBoundary rotation b = false
  end.

(** The call sent a notification to the observer. *)
Definition Notified (before after : Camera) : Prop :=
  _cameraObserver after <> _cameraObserver before.

(** The fresh camera on which the concrete calls below are made. *)
Definition defaultCamera : Camera := constructor None None None None.

(** The bounds of a rotation boundary are normalised angles. *)
Definition Normalized (b : RotationBoundary) : Prop :=
  0 <= rb_start b < 2 * PI /\ 0 <= rb_end b < 2 * PI.

(** The component [f] that the loop of [clampingEntireViewPort] ends with:
    it starts from [best] and moves to the component of each later
    difference of strictly larger magnitude. *)
Fixpoint largest (f : Point -> R) (best : R) (l : list Point) : R :=
  match l with
  | [] => best
  | d :: l' => if Rabs (f d) >? Rabs best then largest f (f d) l' else largest f best l'
  end.

(** The differences, clamped corner minus corner, of the four corners of the
    viewport of a camera at [target]. *)
Definition cornerDeltas (w h : R) (target : Point) (rot zoom : R)
    (b : PositionBoundary) : list Point :=
  map (fun corner =>
         let transformed :=
           transformViewPort2WorldSpaceWithCameraAttributes corner target zoom rot in
         vectorSubtraction (simpleClamping transformed b) transformed)
      (viewPortCorners w h).

(** All four corners of the viewport of the camera are inside its position
    boundary. *)
Definition ViewPortInside (this : Camera) : Prop :=
  forall corner,
    In corner (viewPortCorners (viewPortWidth this) (viewPortHeight this)) ->
    Inside (transformViewPort2WorldSpace corner this) (positionBoundary this).

(** The default camera, limiting the entire viewport. *)
Definition limitedCamera : Camera := with_limitEntireViewPort true defaultCamera.

(** A camera with a viewport of 500 by 100 in a boundary of 600 by 200,
    limiting the entire viewport. *)
Definition wideCamera : Camera :=
  with_limitEntireViewPort true
    (constructor (Some 500) (Some 100)
       (Some {| pb_min := {| x := -300; y := -100 |}; pb_max := {| x := 300; y := 100 |} |})
       None).

Definition topRight (b : PositionBoundary) : Point :=
  {| x := x (pb_max b); y := y (pb_max b) |}.
Definition bottomRight (b : PositionBoundary) : Point :=
  {| x := x (pb_max b); y := y (pb_min b) |}.
Definition topLeft (b : PositionBoundary) : Point :=
  {| x := x (pb_min b); y := y (pb_max b) |}.
Definition bottomLeft (b : PositionBoundary) : Point :=
  {| x := x (pb_min b); y := y (pb_min b) |}.

(** The result of [clampingV2] is the point that the intersection of the
    segment from [origin] to [destination] with the edge from [boundaryStart]
    to [boundaryEnd] reports, and that point is on both. *)
Definition EdgeResult (f : Point -> Point -> Point -> Point -> IntersectionResult)
    (origin destination boundaryStart boundaryEnd : Point)
    (result : Exception + Point) : Prop :=
  exists p,
    result = inr p
    /\ reported (f origin destination boundaryStart boundaryEnd) p
    /\ OnSegment p origin destination
    /\ OnSegment p boundaryStart boundaryEnd.

(** A boundary whose start is not a normalised angle. *)
Definition unnormalizedBoundary : RotationBoundary :=
  {| rb_start := -1; rb_end := 1; positiveDirection := true; startForTieBreak := true |}.

(** The arc from 0 to 1, counter-clockwise. *)
Definition unitArc : RotationBoundary :=
  {| rb_start := 0; rb_end := 1; positiveDirection := true; startForTieBreak := true |}.

(** The square from (-10,-10) to (10,10). *)
Definition smallBoundary : PositionBoundary :=
  {| pb_min := {| x := -10; y := -10 |}; pb_max := {| x := 10; y := 10 |} |}.

(** The default position boundary of the constructor. *)
Definition defaultBoundary : PositionBoundary :=
  {| pb_min := {| x := -1000; y := -1000 |}; pb_max := {| x := 1000; y := 1000 |} |}.

(** A position boundary away from the origin and a zoom boundary above 1. *)
Definition farBoundary : PositionBoundary :=
  {| pb_min := {| x := 10; y := 10 |}; pb_max := {| x := 20; y := 20 |} |}.

Definition highZoom : ZoomLevelBoundary := {| zb_min := 2; zb_max := 5 |}.

(** The cameras of the concrete calls. *)
Definition smallCamera : Camera := constructor None None (Some smallBoundary) None.

Definition arcCamera : Camera := set_rotationBoundary unitArc defaultCamera.

Definition farCamera : Camera := constructor None None (Some farBoundary) (Some highZoom).

(** ** The remaining functions of [camera.ts] *)

Module MinZoom.

(** The variables that the loop of [getMinZoomLevelWithCameraRotation]
    updates. *)
Record Loop : Type := mkLoop {
  rotation : R;
  maxMinWidthZoomLevel : R;
  maxMinHeightZoomLevel : R
}.

(** One turn of the loop; the counter [i] is not read by the body. *)
Definition body (viewPortWidth viewPortHeight boundaryWidth boundaryHeight increment : R)
    (st : Loop) (i : nat) : Loop :=
  let widthPrime :=
    viewPortHeight * sin (rotation st) + viewPortWidth * cos (rotation st) in
  let heightPrime :=
    viewPortHeight * cos (rotation st) + viewPortWidth * sin (rotation st) in
  {| maxMinWidthZoomLevel := Rmax (maxMinWidthZoomLevel st) (widthPrime / boundaryWidth);
     maxMinHeightZoomLevel := Rmax (maxMinHeightZoomLevel st) (heightPrime / boundaryHeight);
     rotation := rotation st + increment |}.

End MinZoom.

Definition getMinZoomLevelWithCameraRotation (viewPortWidth viewPortHeight : R)
    (positionBoundary : PositionBoundary) : R :=
  let steps := 10%nat in
  let rotation := 0 in
  let increment := PI / (2 * INR steps) in
  let boundaryWidth := x (pb_max positionBoundary) - x (pb_min positionBoundary) in
  let boundaryHeight := y (pb_max positionBoundary) - y (pb_min positionBoundary) in
  let maxMinWidthZoomLevel := viewPortWidth / boundaryWidth in
  let maxMinHeightZoomLevel := viewPortHeight / boundaryHeight in
  let st :=
    fold_left
      (MinZoom.body viewPortWidth viewPortHeight boundaryWidth boundaryHeight increment)
      (seq 0 (steps + 1))
      {| MinZoom.rotation := rotation;
         MinZoom.maxMinWidthZoomLevel := maxMinWidthZoomLevel;
         MinZoom.maxMinHeightZoomLevel := maxMinHeightZoomLevel |} in
  if MinZoom.maxMinWidthZoomLevel st >? MinZoom.maxMinHeightZoomLevel st
  then MinZoom.maxMinWidthZoomLevel st
  else MinZoom.maxMinHeightZoomLevel st.

Definition deg2rad (degree : R) : R := degree * PI / 180.

Definition rad2deg (radian : R) : R := radian * 180 / PI.

Definition restrictXTranslation (delta : Point) : Point :=
  {| x := 0; y := y delta |}.

Definition restrictYTranslation (delta : Point) : Point :=
  {| x := x delta; y := 0 |}.

Definition restrictRelativeXTranslation (delta : Point) (cameraRotation : R) : Point :=
  let verticalDirection := rotateVector {| x := 0; y := 1 |} cameraRotation in
  let magnitude := dotProduct delta verticalDirection in
  multiplyByScalar verticalDirection magnitude.

Definition restrictRelativeYTranslation (delta : Point) (cameraRotation : R) : Point :=
  let horizontalDirection := rotateVector {| x := 1; y := 0 |} cameraRotation in
  let magnitude := dotProduct delta horizontalDirection in
  multiplyByScalar horizontalDirection magnitude.

(** The six state mutators of the camera, as calls. *)
Inductive Method : Type :=
| callSetPosition (destination : Point)
| callSetPositionBy (offset : Point)
| callSetZoomLevel (targetZoom : R)
| callSetZoomLevelBy (deltaZoomLevel : R)
| callSetRotation (rotation : R)
| callSetRotationBy (deltaRotation : R).

Definition invoke (this : Camera) (m : Method) : Camera :=
  match m with
  | callSetPosition destination => setPosition destination this
  | callSetPositionBy offset => setPositionBy offset this
  | callSetZoomLevel targetZoom => setZoomLevel targetZoom this
  | callSetZoomLevelBy deltaZoomLevel => setZoomLevelBy deltaZoomLevel this
  | callSetRotation rotation => setRotation rotation this
  | callSetRotationBy deltaRotation => setRotationBy deltaRotation this
  end.


(** The boundary has its min at most its max on each axis. *)
Definition WellFormed (b : PositionBoundary) : Prop :=
  x (pb_min b) <= x (pb_max b) /\ y (pb_min b) <= y (pb_max b).

(** What a notification says of the call that sent it: the attribute it
    reports went from its value in [before] to its value in [after], the two
    other attributes are the same in both, and the snapshot is the state of
    [after]. *)
Definition Reports (e : Observer.Notification) (before after : Camera) : Prop :=
  match e with
  | Observer.pan origin destination state =>
      origin = position before /\ destination = position after
      /\ zoomLevel after = zoomLevel before /\ rotation after = rotation before
      /\ state = snapshot after
  | Observer.zoom origin destination state =>
      origin = zoomLevel before /\ destination = zoomLevel after
      /\ position after = position before /\ rotation after = rotation before
      /\ state = snapshot after
  | Observer.rotate origin destination state =>
      origin = rotation before /\ destination = rotation after
      /\ position after = position before /\ zoomLevel after = zoomLevel before
      /\ state = snapshot after
  end.


(** The arc from 0 to 1, clockwise: the long way round. *)
Definition clockwiseArc : RotationBoundary :=
  {| rb_start := 0; rb_end := 1; positiveDirection := false; startForTieBreak := true |}.


(** The default camera limiting the entire viewport, after zooming out to
    0.1. *)
Definition zoomedOutCamera : Camera := setZoomLevel (1 / 10) limitedCamera.

(** ** Comparisons *)

Module NumFacts.

Lemma ltb_spec (a b : R) : reflect (a < b) (a <? b).
Proof. unfold Num.ltb; destruct (Rlt_dec a b); constructor; assumption. Qed.

Lemma leb_spec (a b : R) : reflect (a <= b) (a <=? b).
Proof. unfold Num.leb; destruct (Rle_dec a b); constructor; assumption. Qed.

Lemma gtb_spec (a b : R) : reflect (a > b) (a >? b).
Proof. unfold Num.gtb; apply ltb_spec. Qed.

Lemma geb_spec (a b : R) : reflect (a >= b) (a >=? b).
Proof.
  unfold Num.geb; destruct (leb_spec b a); constructor; lra.
Qed.

Lemma eqb_spec (a b : R) : reflect (a = b) (a =? b).
Proof. unfold Num.eqb; destruct (Req_dec_T a b); constructor; assumption. Qed.

End NumFacts.

(** Split on every comparison of the goal and of the hypotheses. *)
Ltac num_cases :=
  repeat match goal with
  | |- context [?a <? ?b] => destruct (NumFacts.ltb_spec a b)
  | |- context [?a <=? ?b] => destruct (NumFacts.leb_spec a b)
  | |- context [?a >? ?b] => destruct (NumFacts.gtb_spec a b)
  | |- context [?a >=? ?b] => destruct (NumFacts.geb_spec a b)
  | |- context [?a =? ?b] => destruct (NumFacts.eqb_spec a b)
  | H : context [?a <? ?b] |- _ => destruct (NumFacts.ltb_spec a b)
  | H : context [?a <=? ?b] |- _ => destruct (NumFacts.leb_spec a b)
  | H : context [?a >? ?b] |- _ => destruct (NumFacts.gtb_spec a b)
  | H : context [?a >=? ?b] |- _ => destruct (NumFacts.geb_spec a b)
  | H : context [?a =? ?b] |- _ => destruct (NumFacts.eqb_spec a b)
  end.

(** Decide every comparison of the goal that linear arithmetic settles. *)
Ltac num_eval :=
  repeat match goal with
  | |- context [?a <? ?b] =>
      destruct (NumFacts.ltb_spec a b); [ try lra | try lra ]
  | |- context [?a <=? ?b] =>
      destruct (NumFacts.leb_spec a b); [ try lra | try lra ]
  | |- context [?a >? ?b] =>
      destruct (NumFacts.gtb_spec a b); [ try lra | try lra ]
  | |- context [?a >=? ?b] =>
      destruct (NumFacts.geb_spec a b); [ try lra | try lra ]
  | |- context [?a =? ?b] =>
      destruct (NumFacts.eqb_spec a b); [ try lra | try lra ]
  end.

Lemma withinPositionBoundary_Inside (p : Point) (b : PositionBoundary) :
  withinPositionBoundary p b = true <-> Inside p b.
Proof.
  unfold withinPositionBoundary, Inside.
  num_cases; simpl; split; intros; try discriminate; try reflexivity; lra.
Qed.

Lemma withinPositionBoundary_outside (p : Point) (b : PositionBoundary) :
  withinPositionBoundary p b = false <-> ~ Inside p b.
Proof.
  rewrite <- withinPositionBoundary_Inside.
  destruct (withinPositionBoundary p b); split; intros; try discriminate; try reflexivity;
    try congruence.
Qed.

Lemma withinZoomLevelBoundary_spec (z : R) (b : ZoomLevelBoundary) :
  withinZoomLevelBoundary z b = true <-> zb_min b <= z <= zb_max b.
Proof.
  unfold withinZoomLevelBoundary.
  num_cases; simpl; split; intros; try discriminate; try reflexivity; lra.
Qed.

Lemma viewPortWithinPositionBoundary_corners (w h : R) (c : Point) (z r : R)
    (b : PositionBoundary) :
  viewPortWithinPositionBoundary w h c z r b = true <->
  forall corner, In corner (viewPortCorners w h) ->
    Inside (transformViewPort2WorldSpaceWithCameraAttributes corner c z r) b.
Proof.
  unfold viewPortWithinPositionBoundary, viewPortCorners.
  rewrite !andb_true_iff, !withinPositionBoundary_Inside.
  split.
  - intros [[[H1 H2] H3] H4] corner [<- | [<- | [<- | [<- | []]]]]; assumption.
  - intros H; repeat split; apply H; simpl; auto.
Qed.

(** ** The remainder and the normalisation of angles *)

Lemma trunc_small (a : R) : -1 < a < 1 -> Num.trunc a = 0.
Proof.
  intros Ha. unfold Num.trunc.
  destruct (Rle_dec 0 a).
  - rewrite <- (Int_part_spec a 0%Z); [reflexivity | simpl; lra].
  - rewrite <- (Int_part_spec (- a) 0%Z); [simpl; lra | simpl; lra].
Qed.

Lemma rem_small (a b : R) : 0 < b -> - b < a < b -> a %% b = a.
Proof.
  intros Hb Ha. unfold Num.rem.
  rewrite trunc_small; [ring |].
  split.
  - apply Rmult_lt_reg_r with b; [assumption |].
    unfold Rdiv; rewrite Rmult_assoc, Rinv_l by lra. lra.
  - apply Rmult_lt_reg_r with b; [assumption |].
    unfold Rdiv; rewrite Rmult_assoc, Rinv_l by lra. lra.
Qed.

Lemma trunc_bounds (a : R) :
  (0 <= a -> Num.trunc a <= a < Num.trunc a + 1)
  /\ (a < 0 -> Num.trunc a - 1 < a <= Num.trunc a).
Proof.
  unfold Num.trunc. destruct (Rle_dec 0 a) as [H | H].
  - split; [intros _ | lra].
    destruct (base_Int_part a). lra.
  - split; [lra | intros _].
    destruct (base_Int_part (- a)). lra.
Qed.

Lemma rem_bounds (a b : R) :
  0 < b ->
  (0 <= a -> 0 <= a %% b < b) /\ (a < 0 -> - b < a %% b <= 0).
Proof.
  intros Hb. unfold Num.rem.
  assert (Hab : a = a / b * b) by (field; lra).
  destruct (trunc_bounds (a / b)) as [Hpos Hneg].
  split; intros Ha.
  - assert (H0 : 0 <= a / b).
    { apply Rmult_le_reg_r with b; [assumption |]. lra. }
    specialize (Hpos H0). nra.
  - assert (H0 : a / b < 0).
    { apply Rmult_lt_reg_r with b; [assumption |]. lra. }
    specialize (Hneg H0). nra.
Qed.

Lemma two_PI_pos : 0 < 2 * PI.
Proof. pose proof PI_RGT_0. lra. Qed.

Lemma PI_gt_3 : 3 < PI.
Proof. pose proof PI2_3_2. lra. Qed.

Lemma normalizeAngle_range (a : R) : 0 <= normalizeAngle a < 2 * PI.
Proof.
  unfold normalizeAngle.
  pose proof two_PI_pos as Hp.
  destruct (rem_bounds a (2 * PI) Hp) as [Hpos Hneg].
  destruct (NumFacts.geb_spec (a %% (2 * PI)) 0) as [H | H].
  - destruct (Rle_dec 0 a); [apply Hpos; assumption |].
    assert (a < 0) by lra. specialize (Hneg H0). lra.
  - destruct (Rle_dec 0 a) as [H0 | H0]; [specialize (Hpos H0); lra |].
    assert (H1 : a < 0) by lra. specialize (Hneg H1). lra.
Qed.

Lemma normalizeAngle_id (a : R) : 0 <= a < 2 * PI -> normalizeAngle a = a.
Proof.
  intros Ha. unfold normalizeAngle.
  rewrite rem_small by lra.
  destruct (NumFacts.geb_spec a 0); lra.
Qed.

Lemma normalizeAngle_neg (a : R) :
  - (2 * PI) < a < 0 -> normalizeAngle a = a + PI * 2.
Proof.
  intros Ha. unfold normalizeAngle.
  rewrite rem_small by lra.
  destruct (NumFacts.geb_spec a 0); lra.
Qed.

Lemma normalizeAngle_idempotent (a : R) :
  normalizeAngle (normalizeAngle a) = normalizeAngle a.
Proof. apply normalizeAngle_id, normalizeAngle_range. Qed.

(** ** The mutators: accepted and rejected calls *)

Lemma app_one_neq {A : Type} (l : list A) (a : A) : l ++ [a] <> l.
Proof.
  intros H. apply (f_equal (@List.length A)) in H.
  rewrite length_app in H. simpl in H.
  apply (f_equal INR) in H. rewrite plus_INR in H. simpl in H. lra.
Qed.

Lemma setPosition_accept (destination : Point) (this : Camera) :
  (limitEntireViewPort this = true ->
   viewPortWithinPositionBoundary (viewPortWidth this) (viewPortHeight this) destination
     (_zoomLevel this) (_rotation this) (_positionBoundary this) = true) ->
  withinPositionBoundary destination (_positionBoundary this) = true ->
  setPosition destination this =
  with_cameraObserver
    (_cameraObserver this ++
       [Observer.pan (_position this) destination
          (Observer.mkCameraState destination (_zoomLevel this) (_rotation this))])
    (with_position destination this).
Proof.
  intros Hv Hw. unfold setPosition. rewrite Hw.
  destruct (limitEntireViewPort this); [rewrite Hv by reflexivity |]; reflexivity.
Qed.

Lemma setPosition_cases (destination : Point) (this : Camera) :
  (setPosition destination this = this
   /\ ((limitEntireViewPort this = true /\
        viewPortWithinPositionBoundary (viewPortWidth this) (viewPortHeight this) destination
          (_zoomLevel this) (_rotation this) (_positionBoundary this) = false)
       \/ withinPositionBoundary destination (_positionBoundary this) = false))
  \/ (setPosition destination this =
      with_cameraObserver
        (_cameraObserver this ++
           [Observer.pan (_position this) destination
              (Observer.mkCameraState destination (_zoomLevel this) (_rotation this))])
        (with_position destination this)
      /\ (limitEntireViewPort this = true ->
          viewPortWithinPositionBoundary (viewPortWidth this) (viewPortHeight this) destination
            (_zoomLevel this) (_rotation this) (_positionBoundary this) = true)
      /\ withinPositionBoundary destination (_positionBoundary this) = true).
Proof.
  unfold setPosition.
  destruct (limitEntireViewPort this);
    destruct (viewPortWithinPositionBoundary _ _ _ _ _ _);
    destruct (withinPositionBoundary _ _); simpl; auto 6;
    right; repeat split; auto; discriminate.
Qed.

Lemma setZoomLevel_accept (targetZoom : R) (this : Camera) :
  withinZoomLevelBoundary targetZoom (_zoomLevelBoundary this) = true ->
  setZoomLevel targetZoom this =
  with_cameraObserver
    (_cameraObserver this ++
       [Observer.zoom (_zoomLevel this) targetZoom
          (Observer.mkCameraState (_position this) targetZoom (_rotation this))])
    (with_zoomLevel targetZoom this).
Proof. intros H. unfold setZoomLevel. rewrite H. reflexivity. Qed.

Lemma setRotation_accept (rotation : R) (this : Camera) :
  (forall b, _rotationBoundary this = Some b -> rotationWithinBoundary rotation b = true) ->
  setRotation rotation this =
  with_cameraObserver
    (_cameraObserver this ++
       [Observer.rotate (_rotation this) (normalizeAngle rotation)
          (Observer.mkCameraState (_position this) (_zoomLevel this) (normalizeAngle rotation))])
    (with_rotation (normalizeAngle rotation) this).
Proof.
  intros H. unfold setRotation.
  destruct (_rotationBoundary this) as [b |]; [rewrite (H b eq_refl) |]; reflexivity.
Qed.

(** C1: an accepted [setPosition] (one that notifies the observer) leaves the
    camera at the destination, inside the position boundary; and when
    [limitEntireViewPort] is set, each of the four viewport corners, taken to
    world space by the camera at its new position with its zoom level and
    rotation, is inside the position boundary too. *)
Theorem setPosition_accepted_within (destination : Point) (this : Camera) :
  Notified this (setPosition destination this) ->
  position (setPosition destination this) = destination
  /\ Inside (position (setPosition destination this))
       (positionBoundary (setPosition destination this))
  /\ (limitEntireViewPort this = true ->
      forall corner,
        In corner (viewPortCorners (viewPortWidth this) (viewPortHeight this)) ->
        Inside (transformViewPort2WorldSpace corner (setPosition destination this))
          (positionBoundary (setPosition destination this))).
Proof.
  unfold Notified.
  destruct (setPosition_cases destination this) as [[E _] | [E [Hv Hw]]];
    rewrite E; [congruence | intros _].
  split; [reflexivity |].
  split; [apply withinPositionBoundary_Inside; exact Hw |].
  intros Hl. specialize (Hv Hl).
  apply viewPortWithinPositionBoundary_corners. exact Hv.
Qed.

(** C2: a [setPosition], [setZoomLevel] or [setRotation] whose target is
    outside the boundary enforced for it returns the camera it was given:
    position, zoom level and rotation are the same, the list of notifications
    is the same, and there is no error value to return. *)
Theorem violating_call_is_silent (m : Mutator) (this : Camera) :
  Violates m this -> call m this = this.
Proof.
  destruct m as [destination | targetZoom | rot]; simpl.
  - intros H.
    destruct (setPosition_cases destination this) as [[E _] | [_ [Hv Hw]]];
      [exact E | exfalso].
    destruct H as [[Hl [corner [Hin Hout]]] | Hout].
    + apply Hout.
      apply (proj1 (viewPortWithinPositionBoundary_corners _ _ _ _ _ _) (Hv Hl)).
      exact Hin.
    + apply Hout, withinPositionBoundary_Inside, Hw.
  - intros H. unfold setZoomLevel.
    destruct (withinZoomLevelBoundary targetZoom (_zoomLevelBoundary this)) eqn:E;
      [| reflexivity].
    apply withinZoomLevelBoundary_spec in E. contradiction.
  - intros [b [Hb Hr]]. unfold setRotation. rewrite Hb, Hr. reflexivity.
Qed.

(** C10: the constructor puts the camera at [(0,0)] with zoom level [1] and
    rotation [0] whatever boundaries it is given, and notifies nobody: when
    the position boundary does not contain [(0,0)] the new camera is outside
    it, and when the zoom boundary does not contain [1] the new zoom level is
    outside it. *)
Theorem constructor_ignores_boundaries (w h : option R)
    (pb : PositionBoundary) (zb : ZoomLevelBoundary) :
  let this := constructor w h (Some pb) (Some zb) in
  position this = {| x := 0; y := 0 |}
  /\ zoomLevel this = 1
  /\ rotation this = 0
  /\ positionBoundary this = pb
  /\ zoomLevelBoundary this = zb
  /\ _cameraObserver this = []
  /\ (~ Inside {| x := 0; y := 0 |} pb ->
      withinPositionBoundary (position this) (positionBoundary this) = false)
  /\ (~ (zb_min zb <= 1 <= zb_max zb) ->
      withinZoomLevelBoundary (zoomLevel this) (zoomLevelBoundary this) = false).
Proof.
  simpl. repeat split.
  - intros H. apply withinPositionBoundary_outside. exact H.
  - intros H. unfold zoomLevel, zoomLevelBoundary; simpl.
    destruct (withinZoomLevelBoundary 1 zb) eqn:E; [| reflexivity].
    apply withinZoomLevelBoundary_spec in E. contradiction.
Qed.

(** C8: on a position boundary of positive width and height,
    [getMinZoomLevel] is the larger of width over boundary width and height
    over boundary height; for a viewport of 500 by 500 in the boundary from
    (-1000,-1000) to (1000,1000) it is 0.25. *)
Theorem getMinZoomLevel_is_max (w h : R) (b : PositionBoundary) :
  x (pb_min b) < x (pb_max b) ->
  y (pb_min b) < y (pb_max b) ->
  getMinZoomLevel w h b
  = Rmax (w / (x (pb_max b) - x (pb_min b))) (h / (y (pb_max b) - y (pb_min b)))
  /\ getMinZoomLevel 500 500
       {| pb_min := {| x := -1000; y := -1000 |}; pb_max := {| x := 1000; y := 1000 |} |}
     = 25 / 100.
Proof.
  intros _ _. split.
  - unfold getMinZoomLevel.
    set (zw := w / (x (pb_max b) - x (pb_min b))).
    set (zh := h / (y (pb_max b) - y (pb_min b))).
    destruct (NumFacts.gtb_spec zw zh);
      [rewrite Rmax_left by lra | rewrite Rmax_right by lra]; reflexivity.
  - unfold getMinZoomLevel; cbn [x y pb_min pb_max].
    num_cases; lra.
Qed.

(** C6: for a camera of positive zoom level, at any position and rotation,
    taking a viewport point to world space and back gives the point again. *)
Theorem viewPort_world_roundtrip (p : Point) (this : Camera) :
  0 < zoomLevel this ->
  transformWorldSpace2ViewPort (transformViewPort2WorldSpace p this) this = p.
Proof.
  unfold zoomLevel. intros Hz.
  unfold transformWorldSpace2ViewPort, transformViewPort2WorldSpace,
    transformViewPort2WorldSpaceWithCameraAttributes,
    vectorSubtraction, vectorAddition, multiplyByScalar, rotateVector.
  destruct p as [px py]; simpl.
  rewrite cos_neg, sin_neg.
  pose proof (sin2_cos2 (_rotation this)) as Hsc. unfold Rsqr in Hsc.
  set (c := cos (_rotation this)) in *. set (s := sin (_rotation this)) in *.
  set (z := _zoomLevel this) in *.
  f_equal.
  - transitivity (px * (s * s + c * c)); [field; lra | rewrite Hsc; ring].
  - transitivity (py * (s * s + c * c)); [field; lra | rewrite Hsc; ring].
Qed.

(** ** The rotation boundary *)

Lemma Rabs_eval_pos (a : R) : 0 <= a -> Rabs a = a.
Proof. intros H. apply Rabs_pos_eq. exact H. Qed.

Lemma Rabs_eval_neg (a : R) : a <= 0 -> Rabs a = - a.
Proof. intros H. apply Rabs_left1. exact H. Qed.

Lemma rotationWithinBoundary_start (b : RotationBoundary) :
  Normalized b -> rotationWithinBoundary (rb_start b) b = true.
Proof.
  intros [Hs He]. unfold rotationWithinBoundary.
  rewrite normalizeAngle_id by exact Hs.
  pose proof PI_RGT_0.
  destruct (positiveDirection b); simpl; num_cases; simpl; try reflexivity; lra.
Qed.

Lemma rotationWithinBoundary_end (b : RotationBoundary) :
  Normalized b -> rotationWithinBoundary (rb_end b) b = true.
Proof.
  intros [Hs He]. unfold rotationWithinBoundary.
  rewrite normalizeAngle_id by exact He.
  pose proof PI_RGT_0.
  destruct (positiveDirection b); simpl; num_cases; simpl; try reflexivity; lra.
Qed.

Lemma clampRotation_cases (a : R) (b : RotationBoundary) :
  (rotationWithinBoundary a b = true /\ clampRotation a b = a)
  \/ (rotationWithinBoundary a b = false
      /\ (clampRotation a b = rb_start b \/ clampRotation a b = rb_end b)).
Proof.
  unfold clampRotation.
  destruct (rotationWithinBoundary a b); [left; auto | right].
  split; [reflexivity |].
  destruct (_ <? _); [auto |].
  destruct (_ && _); auto.
Qed.

(** C3, on the code: the setter of the rotation boundary stores the boundary
    it is given and not the validated copy it builds; given a start of -1 the
    camera keeps a start of -1, which is no angle of [0, 2π). *)
Theorem set_rotationBoundary_keeps_argument :
  (forall rb this, _rotationBoundary (set_rotationBoundary rb this) = Some rb)
  /\ (exists b,
        _rotationBoundary (set_rotationBoundary unnormalizedBoundary defaultCamera) = Some b
        /\ rb_start b = -1
        /\ ~ (0 <= rb_start b < 2 * PI)).
Proof.
  split; [reflexivity |].
  exists unnormalizedBoundary. split; [reflexivity |].
  simpl. split; [reflexivity | lra].
Qed.

(** C4, as the code has it: for a boundary whose start and end are angles of
    [0, 2π), the clamped angle is inside the boundary, and on a camera that
    holds such a boundary [setRotationBy] is always accepted: the observer is
    notified and the rotation is the clamped target. *)
Theorem clampRotation_within_normalized (a : R) (b : RotationBoundary) :
  Normalized b ->
  rotationWithinBoundary (clampRotation a b) b = true
  /\ (forall deltaRotation this,
        _rotationBoundary this = Some b ->
        Notified this (setRotationBy deltaRotation this)
        /\ rotation (setRotationBy deltaRotation this)
           = normalizeAngle
               (clampRotation (normalizeAngle (rotation this + deltaRotation)) b)).
Proof.
  intros Hb.
  assert (Hclamp : forall a', rotationWithinBoundary (clampRotation a' b) b = true).
  { intros a'.
    destruct (clampRotation_cases a' b) as [[Hw ->] | [_ [-> | ->]]].
    - exact Hw.
    - apply rotationWithinBoundary_start; exact Hb.
    - apply rotationWithinBoundary_end; exact Hb. }
  split; [apply Hclamp |].
  intros deltaRotation this Hthis.
  unfold setRotationBy, rotation, Notified. rewrite Hthis.
  rewrite setRotation_accept.
  - simpl. split; [apply app_one_neq | reflexivity].
  - intros b' Hb'. rewrite Hthis in Hb'. injection Hb' as <-. apply Hclamp.
Qed.

(** C4, the claim as written fails: with a start of -1, which the setter
    keeps as it is, clamping -1 gives the start, which the membership test
    puts outside; and [setRotationBy (-1)] on the fresh camera holding that
    boundary is rejected. *)
Lemma clampRotation_outside_unnormalized :
  rotationWithinBoundary (clampRotation (-1) unnormalizedBoundary) unnormalizedBoundary
  = false
  /\ setRotationBy (-1) (set_rotationBoundary unnormalizedBoundary defaultCamera)
     = set_rotationBoundary unnormalizedBoundary defaultCamera.
Proof.
  unfold unnormalizedBoundary.
  pose proof PI_gt_3 as Hpi.
  assert (Hn1 : normalizeAngle (-1) = -1 + PI * 2)
    by (apply normalizeAngle_neg; lra).
  assert (Hn1' : normalizeAngle (-1 + PI * 2) = -1 + PI * 2)
    by (apply normalizeAngle_id; lra).
  assert (Hp1 : normalizeAngle 1 = 1) by (apply normalizeAngle_id; lra).
  assert (Hout : rotationWithinBoundary (-1)
            {| rb_start := -1; rb_end := 1;
               positiveDirection := true; startForTieBreak := true |} = false).
  { unfold rotationWithinBoundary; simpl. rewrite Hn1. num_eval; reflexivity. }
  assert (Hout' : rotationWithinBoundary (-1 + PI * 2)
            {| rb_start := -1; rb_end := 1;
               positiveDirection := true; startForTieBreak := true |} = false).
  { unfold rotationWithinBoundary; simpl. rewrite Hn1'. num_eval; reflexivity. }
  assert (Hs0 : angleSpan (-1) (-1) = 0).
  { unfold angleSpan. rewrite Hn1.
    replace (-1 + PI * 2 - (-1 + PI * 2)) with 0 by ring.
    rewrite Rabs_R0. num_eval; reflexivity. }
  assert (Hs0' : angleSpan (-1) (-1 + PI * 2) = 0).
  { unfold angleSpan. rewrite Hn1, Hn1'.
    replace (-1 + PI * 2 - (-1 + PI * 2)) with 0 by ring.
    rewrite Rabs_R0. num_eval; reflexivity. }
  assert (Hs2 : angleSpan 1 (-1) = -2).
  { unfold angleSpan. rewrite Hn1, Hp1.
    rewrite Rabs_eval_pos by lra. num_eval; lra. }
  assert (Hs2' : angleSpan 1 (-1 + PI * 2) = -2).
  { unfold angleSpan. rewrite Hn1', Hp1.
    rewrite Rabs_eval_pos by lra. num_eval; lra. }
  assert (Hc : clampRotation (-1)
            {| rb_start := -1; rb_end := 1;
               positiveDirection := true; startForTieBreak := true |} = -1).
  { unfold clampRotation. rewrite Hout. simpl. rewrite Hs0, Hs2.
    rewrite Rabs_R0, Rabs_eval_neg by lra. num_eval; reflexivity. }
  assert (Hc' : clampRotation (-1 + PI * 2)
            {| rb_start := -1; rb_end := 1;
               positiveDirection := true; startForTieBreak := true |} = -1).
  { unfold clampRotation. rewrite Hout'. simpl. rewrite Hs0', Hs2'.
    rewrite Rabs_R0, Rabs_eval_neg by lra. num_eval; reflexivity. }
  simpl. split.
  - rewrite Hc. exact Hout.
  - unfold setRotationBy. simpl.
    replace (0 + -1) with (-1) by ring.
    rewrite Hn1, Hc'. unfold setRotation. simpl. rewrite Hout. reflexivity.
Qed.

(** ** The whole-viewport clamp *)

Lemma largest_dominates (f : Point -> R) (l : list Point) (best : R) :
  Rabs best <= Rabs (largest f best l)
  /\ (forall d, In d l -> Rabs (f d) <= Rabs (largest f best l)).
Proof.
  revert best. induction l as [| d l IH]; intros best; simpl.
  - split; [lra | intros d []].
  - destruct (NumFacts.gtb_spec (Rabs (f d)) (Rabs best)) as [H | H].
    + destruct (IH (f d)) as [H1 H2].
      split; [lra |]. intros d' [<- | Hin]; [exact H1 | apply H2, Hin].
    + destruct (IH best) as [H1 H2].
      split; [exact H1 |]. intros d' [<- | Hin]; [lra | apply H2, Hin].
Qed.

Lemma largest_member (f : Point -> R) (l : list Point) (best : R) :
  largest f best l = best \/ exists d, In d l /\ largest f best l = f d.
Proof.
  revert best. induction l as [| d l IH]; intros best; simpl.
  - left; reflexivity.
  - destruct (Rabs (f d) >? Rabs best).
    + right. destruct (IH (f d)) as [-> | [d' [Hin ->]]]; eauto.
    + destruct (IH best) as [-> | [d' [Hin ->]]]; eauto.
Qed.

(** The callback at an index past the first leaves the tail of [diffs] as it
    is and moves [delta] and the two maxima as [largest] does. *)
Lemma forEach_callback_tail (pre rest : list Point) (d : Point) (dx dy : R) :
  forEach_callback
    {| diffs := {| x := dx; y := dy |} :: pre ++ d :: rest;
       maxXDiff := Rabs dx; maxYDiff := Rabs dy |}
    (S (List.length pre))
  = {| diffs := {| x := largest x dx [d]; y := largest y dy [d] |} :: pre ++ d :: rest;
       maxXDiff := Rabs (largest x dx [d]); maxYDiff := Rabs (largest y dy [d]) |}.
Proof.
  unfold forEach_callback, diffAt, assign_delta_x, assign_delta_y,
    assign_maxXDiff, assign_maxYDiff; simpl.
  rewrite !nth_middle.
  destruct (Rabs (x d) >? Rabs dx); simpl; rewrite ?nth_middle;
    destruct (Rabs (y d) >? Rabs dy); simpl; reflexivity.
Qed.

Lemma largest_app (f : Point -> R) (l1 l2 : list Point) (best : R) :
  largest f best (l1 ++ l2) = largest f (largest f best l1) l2.
Proof.
  revert best. induction l1 as [| d l1 IH]; intros best; simpl; [reflexivity |].
  destruct (Rabs (f d) >? Rabs best); apply IH.
Qed.

Lemma forEach_tail (rest pre : list Point) (dx dy : R) :
  fold_left forEach_callback (seq (S (List.length pre)) (List.length rest))
    {| diffs := {| x := dx; y := dy |} :: pre ++ rest;
       maxXDiff := Rabs dx; maxYDiff := Rabs dy |}
  = {| diffs := {| x := largest x dx rest; y := largest y dy rest |} :: pre ++ rest;
       maxXDiff := Rabs (largest x dx rest); maxYDiff := Rabs (largest y dy rest) |}.
Proof.
  revert pre dx dy. induction rest as [| d rest IH]; intros pre dx dy.
  - reflexivity.
  - cbn [List.length seq fold_left].
    rewrite forEach_callback_tail.
    replace (pre ++ d :: rest) with ((pre ++ [d]) ++ rest)
      by (rewrite <- app_assoc; reflexivity).
    replace (S (S (List.length pre))) with (S (List.length (pre ++ [d])))
      by (rewrite length_app; simpl; rewrite Nat.add_1_r; reflexivity).
    rewrite IH.
    change (d :: rest) with ([d] ++ rest). rewrite !largest_app. reflexivity.
Qed.

(** The whole loop: the callback at the first index changes nothing, since no
    magnitude exceeds itself. *)
Lemma forEach_delta (d0 : Point) (rest : list Point) :
  delta
    (fold_left forEach_callback (seq 0 (List.length (d0 :: rest)))
       {| diffs := d0 :: rest; maxXDiff := Rabs (x d0); maxYDiff := Rabs (y d0) |})
  = {| x := largest x (x d0) rest; y := largest y (y d0) rest |}.
Proof.
  cbn [List.length seq fold_left].
  assert (H0 : forEach_callback
            {| diffs := d0 :: rest; maxXDiff := Rabs (x d0); maxYDiff := Rabs (y d0) |} 0%nat
          = {| diffs := {| x := x d0; y := y d0 |} :: [] ++ rest;
               maxXDiff := Rabs (x d0); maxYDiff := Rabs (y d0) |}).
  { destruct d0 as [x0 y0]. unfold forEach_callback, diffAt; cbn.
    destruct (NumFacts.gtb_spec (Rabs x0) (Rabs x0)); [lra |]. cbn.
    destruct (NumFacts.gtb_spec (Rabs y0) (Rabs y0)); [lra |]. reflexivity. }
  rewrite H0.
  change (seq 1 (List.length rest))
    with (seq (S (List.length (@nil Point))) (List.length rest)).
  rewrite (forEach_tail rest [] (x d0) (y d0)). reflexivity.
Qed.

Lemma clampingEntireViewPort_outside (w h : R) (target : Point) (rot zoom : R)
    (b : PositionBoundary) :
  viewPortWithinPositionBoundary w h target zoom rot b = false ->
  exists d0 rest,
    cornerDeltas w h target rot zoom b = d0 :: rest
    /\ clampingEntireViewPort w h target rot zoom b
       = vectorAddition {| x := largest x (x d0) rest; y := largest y (y d0) rest |} target.
Proof.
  intros Hout. unfold clampingEntireViewPort.
  unfold viewPortWithinPositionBoundary in Hout. rewrite Hout.
  eexists; eexists. split; [reflexivity |].
  f_equal.
  match goal with
  | |- delta (fold_left _ _ {| diffs := ?d :: ?r; maxXDiff := _; maxYDiff := _ |}) = _ =>
      exact (forEach_delta d r)
  end.
Qed.

(** C7: when the four transformed corners are not all inside the position
    boundary, [clampingEntireViewPort] returns the target moved by one delta,
    whose x is the x of one of the four corner differences (clamped minus
    original) and of the largest magnitude among the four, and whose y is,
    independently, the y of one of the four and of the largest magnitude;
    when all four corners are inside, it returns the target. *)
Theorem clampingEntireViewPort_largest_deltas (w h : R) (target : Point)
    (rot zoom : R) (b : PositionBoundary) :
  (~ (forall corner, In corner (viewPortCorners w h) ->
        Inside (transformViewPort2WorldSpaceWithCameraAttributes corner target zoom rot) b) ->
   exists dx dy,
     In dx (cornerDeltas w h target rot zoom b)
     /\ In dy (cornerDeltas w h target rot zoom b)
     /\ (forall d, In d (cornerDeltas w h target rot zoom b) -> Rabs (x d) <= Rabs (x dx))
     /\ (forall d, In d (cornerDeltas w h target rot zoom b) -> Rabs (y d) <= Rabs (y dy))
     /\ clampingEntireViewPort w h target rot zoom b
        = vectorAddition {| x := x dx; y := y dy |} target)
  /\ ((forall corner, In corner (viewPortCorners w h) ->
         Inside (transformViewPort2WorldSpaceWithCameraAttributes corner target zoom rot) b) ->
      clampingEntireViewPort w h target rot zoom b = target).
Proof.
  split.
  - intros Hout.
    assert (Hf : viewPortWithinPositionBoundary w h target zoom rot b = false).
    { destruct (viewPortWithinPositionBoundary w h target zoom rot b) eqn:E;
        [| reflexivity].
      exfalso. apply Hout. apply viewPortWithinPositionBoundary_corners. exact E. }
    destruct (clampingEntireViewPort_outside _ _ _ _ _ _ Hf) as [d0 [rest [Hd ->]]].
    rewrite Hd.
    assert (Hx : exists dx, In dx (d0 :: rest) /\ largest x (x d0) rest = x dx).
    { destruct (largest_member x rest (x d0)) as [-> | [d [Hin ->]]].
      - exists d0; simpl; auto.
      - exists d; simpl; auto. }
    assert (Hy : exists dy, In dy (d0 :: rest) /\ largest y (y d0) rest = y dy).
    { destruct (largest_member y rest (y d0)) as [-> | [d [Hin ->]]].
      - exists d0; simpl; auto.
      - exists d; simpl; auto. }
    destruct Hx as [dx [Hinx Hx]]. destruct Hy as [dy [Hiny Hy]].
    exists dx, dy.
    destruct (largest_dominates x rest (x d0)) as [Hx0 Hxr].
    destruct (largest_dominates y rest (y d0)) as [Hy0 Hyr].
    rewrite Hx in *. rewrite Hy in *.
    repeat split; try assumption.
    + intros d [<- | Hin]; [exact Hx0 | apply Hxr, Hin].
    + intros d [<- | Hin]; [exact Hy0 | apply Hyr, Hin].
  - intros Hin. unfold clampingEntireViewPort.
    apply viewPortWithinPositionBoundary_corners in Hin.
    unfold viewPortWithinPositionBoundary in Hin. rewrite Hin. reflexivity.
Qed.

(** ** Zooming and rotating under [limitEntireViewPort] *)

Lemma limitedCamera_inside : ViewPortInside limitedCamera.
Proof.
  intros corner Hin. simpl in Hin.
  unfold transformViewPort2WorldSpace, transformViewPort2WorldSpaceWithCameraAttributes,
    Inside; simpl.
  rewrite cos_0, sin_0.
  destruct Hin as [<- | [<- | [<- | [<- | []]]]]; simpl; lra.
Qed.

Lemma wideCamera_inside : ViewPortInside wideCamera.
Proof.
  intros corner Hin. simpl in Hin.
  unfold transformViewPort2WorldSpace, transformViewPort2WorldSpaceWithCameraAttributes,
    Inside; simpl.
  rewrite cos_0, sin_0.
  destruct Hin as [<- | [<- | [<- | [<- | []]]]]; simpl; lra.
Qed.

(** C9: under [limitEntireViewPort], containment of the four corners is not
    kept by [setZoomLevel] nor by [setRotation], which look at their own
    boundaries only: from the default camera, whose corners are inside,
    zooming out to 0.1 is accepted and puts a corner outside; and from a
    camera of viewport 500 by 100 in a boundary of 600 by 200, whose corners
    are inside, a rotation to π/2 is accepted and puts a corner outside. *)
Theorem viewport_containment_not_preserved :
  (exists this targetZoom,
     limitEntireViewPort this = true
     /\ ViewPortInside this
     /\ targetZoom < zoomLevel this
     /\ Notified this (setZoomLevel targetZoom this)
     /\ zoomLevel (setZoomLevel targetZoom this) = targetZoom
     /\ limitEntireViewPort (setZoomLevel targetZoom this) = true
     /\ ~ ViewPortInside (setZoomLevel targetZoom this))
  /\ (exists this angle,
        limitEntireViewPort this = true
        /\ ViewPortInside this
        /\ Notified this (setRotation angle this)
        /\ rotation (setRotation angle this) = angle
        /\ limitEntireViewPort (setRotation angle this) = true
        /\ ~ ViewPortInside (setRotation angle this)).
Proof.
  split.
  - exists limitedCamera, (1 / 10).
    assert (Hacc : withinZoomLevelBoundary (1 / 10) (_zoomLevelBoundary limitedCamera) = true).
    { apply withinZoomLevelBoundary_spec; simpl; lra. }
    rewrite (setZoomLevel_accept _ _ Hacc).
    split; [reflexivity |].
    split; [exact limitedCamera_inside |].
    split; [simpl; lra |].
    split; [apply app_one_neq |].
    split; [reflexivity |].
    split; [reflexivity |].
    intros H. specialize (H {| x := 500 / 2; y := 500 / 2 |}).
    unfold transformViewPort2WorldSpace, transformViewPort2WorldSpaceWithCameraAttributes,
      Inside in H; simpl in H.
    rewrite cos_0, sin_0 in H.
    assert (Hin : 1000 >= 500 / 2 * (1 / (1 / 10)) * 1 - 500 / 2 * (1 / (1 / 10)) * 0 + 0).
    { apply Rle_ge. apply H. auto. }
    lra.
  - exists wideCamera, (PI / 2).
    pose proof PI_RGT_0 as Hpi.
    assert (Hn : normalizeAngle (PI / 2) = PI / 2) by (apply normalizeAngle_id; lra).
    rewrite setRotation_accept by (intros b Hb; discriminate Hb).
    rewrite Hn.
    split; [reflexivity |].
    split; [exact wideCamera_inside |].
    split; [apply app_one_neq |].
    split; [reflexivity |].
    split; [reflexivity |].
    intros H. specialize (H {| x := 500 / 2; y := 100 / 2 |}).
    unfold transformViewPort2WorldSpace, transformViewPort2WorldSpaceWithCameraAttributes,
      Inside in H; simpl in H.
    rewrite cos_PI2, sin_PI2 in H.
    assert (Hin : 500 / 2 * (1 / 1) * 1 + 100 / 2 * (1 / 1) * 0 + 0 <= 100).
    { apply H. auto. }
    lra.
Qed.

(** ** The line-intersection clamp *)

Lemma point_eq (p q : Point) : x p = x q -> y p = y q -> p = q.
Proof. destruct p, q; simpl; intros -> ->; reflexivity. Qed.

Lemma OnSegment_coords (p a b : Point) (t : R) :
  0 <= t <= 1 ->
  x p = x a + (x b - x a) * t ->
  y p = y a + (y b - y a) * t ->
  OnSegment p a b.
Proof.
  intros Ht Hx Hy. exists t. split; [exact Ht |].
  apply point_eq; simpl; assumption.
Qed.

Lemma OnSegment_horizontal (p a b : Point) :
  y a = y b -> y p = y a -> x a <= x p <= x b -> OnSegment p a b.
Proof.
  intros Hab Hp Hx.
  destruct (Req_dec_T (x a) (x b)) as [E | E].
  - apply OnSegment_coords with 0; lra.
  - apply OnSegment_coords with ((x p - x a) / (x b - x a)).
    + split.
      * apply Rmult_le_reg_r with (x b - x a); [lra |].
        unfold Rdiv; rewrite Rmult_assoc, Rinv_l by lra. lra.
      * apply Rmult_le_reg_r with (x b - x a); [lra |].
        unfold Rdiv; rewrite Rmult_assoc, Rinv_l by lra. lra.
    + field; lra.
    + rewrite Hp, <- Hab. ring.
Qed.

Lemma OnSegment_vertical (p a b : Point) :
  x a = x b -> x p = x a -> y a <= y p <= y b -> OnSegment p a b.
Proof.
  intros Hab Hp Hy.
  destruct (Req_dec_T (y a) (y b)) as [E | E].
  - apply OnSegment_coords with 0; lra.
  - apply OnSegment_coords with ((y p - y a) / (y b - y a)).
    + split.
      * apply Rmult_le_reg_r with (y b - y a); [lra |].
        unfold Rdiv; rewrite Rmult_assoc, Rinv_l by lra. lra.
      * apply Rmult_le_reg_r with (y b - y a); [lra |].
        unfold Rdiv; rewrite Rmult_assoc, Rinv_l by lra. lra.
    + rewrite Hp, <- Hab. ring.
    + field; lra.
Qed.

(** A segment that leaves the band [lo <= x <= hi] of its first coordinate
    range while its second coordinate goes from at most [level] to above it
    meets the line at [level] inside the band; stated on coordinates so that
    it serves the four edges. *)
Lemma crossing_parameter (o1 o2 d1 d2 level lo hi : R) :
  o2 <= level -> level < d2 ->
  lo <= o1 <= hi -> lo <= d1 <= hi ->
  exists t, 0 <= t <= 1
    /\ o2 + (d2 - o2) * t = level
    /\ lo <= o1 + (d1 - o1) * t <= hi.
Proof.
  intros Ho Hd H1 H2.
  exists ((level - o2) / (d2 - o2)).
  assert (Ht : 0 <= (level - o2) / (d2 - o2) <= 1).
  { split.
    - apply Rmult_le_reg_r with (d2 - o2); [lra |].
      unfold Rdiv; rewrite Rmult_assoc, Rinv_l by lra. lra.
    - apply Rmult_le_reg_r with (d2 - o2); [lra |].
      unfold Rdiv; rewrite Rmult_assoc, Rinv_l by lra. lra. }
  split; [exact Ht |].
  split; [field; lra |].
  set (t := (level - o2) / (d2 - o2)) in *.
  split; nra.
Qed.

Section ClampingV2Facts.

Context (f : Point -> Point -> Point -> Point -> IntersectionResult)
        `{Hf : !SegmentIntersection f}.

(** The part of [clampingV2] after the choice of the edge. *)
Lemma use_intersection (origin destination boundaryStart boundaryEnd : Point) :
  (exists p, OnSegment p origin destination /\ OnSegment p boundaryStart boundaryEnd) ->
  exists p,
    (let res := f origin destination boundaryStart boundaryEnd in
     if negb (intersects res)
     then inl (Error "should have intersection but cannot calculate one"%string)
     else
       match intersections res with
       | Some (pointIntersection intersectionPoint) => inr intersectionPoint
       | Some (intervalIntersection _ intervalEndPoint) => inr intervalEndPoint
       | None => inl (Error "TypeError: cannot read properties of undefined"%string)
       end) = inr p
    /\ reported (f origin destination boundaryStart boundaryEnd) p
    /\ OnSegment p origin destination
    /\ OnSegment p boundaryStart boundaryEnd.
Proof.
  intros [p [H1 H2]]. cbv zeta.
  pose proof (intersection_complete _ _ _ _ _ H1 H2) as Hi.
  pose proof (intersection_tagged _ _ _ _ Hi) as Ht.
  rewrite Hi; simpl.
  destruct (intersections (f origin destination boundaryStart boundaryEnd))
    as [[q | q0 q] |] eqn:E; [| | congruence].
  - exists q. split; [reflexivity |].
    split; [left; exact E |].
    apply (intersection_point _ _ _ _ _ E).
  - exists q. split; [reflexivity |].
    split; [right; exists q0; exact E |].
    apply (intersection_interval _ _ _ _ _ _ E).
Qed.

End ClampingV2Facts.

(** The segment from a point inside the boundary to a point beyond exactly
    one edge meets that edge. *)
Lemma crossing_top (origin destination : Point) (b : PositionBoundary) :
  Inside origin b ->
  y destination > y (pb_max b) ->
  x (pb_min b) <= x destination <= x (pb_max b) ->
  exists p, OnSegment p origin destination /\ OnSegment p (topLeft b) (topRight b).
Proof.
  intros [Ho1 Ho2] H1 H2.
  destruct (crossing_parameter (x origin) (y origin) (x destination) (y destination)
              (y (pb_max b)) (x (pb_min b)) (x (pb_max b)))
    as [t [Ht [Hl Hr]]]; try lra.
  exists {| x := x origin + (x destination - x origin) * t;
            y := y origin + (y destination - y origin) * t |}.
  split.
  - apply OnSegment_coords with t; [exact Ht | reflexivity | reflexivity].
  - apply OnSegment_horizontal; simpl; lra.
Qed.

Lemma crossing_bottom (origin destination : Point) (b : PositionBoundary) :
  Inside origin b ->
  y destination < y (pb_min b) ->
  x (pb_min b) <= x destination <= x (pb_max b) ->
  exists p, OnSegment p origin destination /\ OnSegment p (bottomLeft b) (bottomRight b).
Proof.
  intros [Ho1 Ho2] H1 H2.
  destruct (crossing_parameter (x origin) (- y origin) (x destination) (- y destination)
              (- y (pb_min b)) (x (pb_min b)) (x (pb_max b)))
    as [t [Ht [Hl Hr]]]; try lra.
  exists {| x := x origin + (x destination - x origin) * t;
            y := y origin + (y destination - y origin) * t |}.
  split.
  - apply OnSegment_coords with t; [exact Ht | reflexivity | reflexivity].
  - apply OnSegment_horizontal; simpl; lra.
Qed.

Lemma crossing_left (origin destination : Point) (b : PositionBoundary) :
  Inside origin b ->
  x destination < x (pb_min b) ->
  y (pb_min b) <= y destination <= y (pb_max b) ->
  exists p, OnSegment p origin destination /\ OnSegment p (bottomLeft b) (topLeft b).
Proof.
  intros [Ho1 Ho2] H1 H2.
  destruct (crossing_parameter (y origin) (- x origin) (y destination) (- x destination)
              (- x (pb_min b)) (y (pb_min b)) (y (pb_max b)))
    as [t [Ht [Hl Hr]]]; try lra.
  exists {| x := x origin + (x destination - x origin) * t;
            y := y origin + (y destination - y origin) * t |}.
  split.
  - apply OnSegment_coords with t; [exact Ht | reflexivity | reflexivity].
  - apply OnSegment_vertical; simpl; lra.
Qed.

Lemma crossing_right (origin destination : Point) (b : PositionBoundary) :
  Inside origin b ->
  x destination > x (pb_max b) ->
  y (pb_min b) <= y destination <= y (pb_max b) ->
  exists p, OnSegment p origin destination /\ OnSegment p (bottomRight b) (topRight b).
Proof.
  intros [Ho1 Ho2] H1 H2.
  destruct (crossing_parameter (y origin) (x origin) (y destination) (x destination)
              (x (pb_max b)) (y (pb_min b)) (y (pb_max b)))
    as [t [Ht [Hl Hr]]]; try lra.
  exists {| x := x origin + (x destination - x origin) * t;
            y := y origin + (y destination - y origin) * t |}.
  split.
  - apply OnSegment_coords with t; [exact Ht | reflexivity | reflexivity].
  - apply OnSegment_vertical; simpl; lra.
Qed.

(** Settle the edge classification of [clampingV2] from the hypotheses. *)
Ltac classify_edges Hw :=
  unfold clampingV2; rewrite Hw; cbn [x y];
  num_eval; cbn [andb orb].

(** C5: with a segment intersection that finds every common point and
    reports only common points, an origin inside a boundary of min at most
    max on each axis, and a destination outside it, [clampingV2] throws
    nothing; it returns the corner when the destination is beyond two
    adjacent edges, and otherwise the point reported for the segment from
    origin to destination and the one edge exceeded (the intersection point,
    or the end point of an interval), which lies on both. *)
Theorem clampingV2_from_inside
    (f : Point -> Point -> Point -> Point -> IntersectionResult)
    (Hf : SegmentIntersection f)
    (origin destination : Point) (b : PositionBoundary) :
  x (pb_min b) <= x (pb_max b) ->
  y (pb_min b) <= y (pb_max b) ->
  Inside origin b ->
  ~ Inside destination b ->
  (forall e, clampingV2 f origin destination b <> inl e)
  /\ (y destination > y (pb_max b) /\ x destination > x (pb_max b) ->
      clampingV2 f origin destination b = inr (topRight b))
  /\ (y destination > y (pb_max b) /\ x destination < x (pb_min b) ->
      clampingV2 f origin destination b = inr (topLeft b))
  /\ (y destination < y (pb_min b) /\ x destination > x (pb_max b) ->
      clampingV2 f origin destination b = inr (bottomRight b))
  /\ (y destination < y (pb_min b) /\ x destination < x (pb_min b) ->
      clampingV2 f origin destination b = inr (bottomLeft b))
  /\ (y destination > y (pb_max b) /\ x (pb_min b) <= x destination <= x (pb_max b) ->
      EdgeResult f origin destination (topLeft b) (topRight b)
        (clampingV2 f origin destination b))
  /\ (y destination < y (pb_min b) /\ x (pb_min b) <= x destination <= x (pb_max b) ->
      EdgeResult f origin destination (bottomLeft b) (bottomRight b)
        (clampingV2 f origin destination b))
  /\ (x destination < x (pb_min b) /\ y (pb_min b) <= y destination <= y (pb_max b) ->
      EdgeResult f origin destination (bottomLeft b) (topLeft b)
        (clampingV2 f origin destination b))
  /\ (x destination > x (pb_max b) /\ y (pb_min b) <= y destination <= y (pb_max b) ->
      EdgeResult f origin destination (bottomRight b) (topRight b)
        (clampingV2 f origin destination b)).
Proof.
  intros Hx Hy Ho Hd.
  assert (Hw : withinPositionBoundary destination b = false)
    by (apply withinPositionBoundary_outside; exact Hd).
  assert (Htr : y destination > y (pb_max b) /\ x destination > x (pb_max b) ->
                clampingV2 f origin destination b = inr (topRight b)).
  { intros [H1 H2]. classify_edges Hw. reflexivity. }
  assert (Htl : y destination > y (pb_max b) /\ x destination < x (pb_min b) ->
                clampingV2 f origin destination b = inr (topLeft b)).
  { intros [H1 H2]. classify_edges Hw. reflexivity. }
  assert (Hbr : y destination < y (pb_min b) /\ x destination > x (pb_max b) ->
                clampingV2 f origin destination b = inr (bottomRight b)).
  { intros [H1 H2]. classify_edges Hw. reflexivity. }
  assert (Hbl : y destination < y (pb_min b) /\ x destination < x (pb_min b) ->
                clampingV2 f origin destination b = inr (bottomLeft b)).
  { intros [H1 H2]. classify_edges Hw. reflexivity. }
  assert (Ht : y destination > y (pb_max b)
               /\ x (pb_min b) <= x destination <= x (pb_max b) ->
               EdgeResult f origin destination (topLeft b) (topRight b)
                 (clampingV2 f origin destination b)).
  { intros [H1 H2]. classify_edges Hw.
    apply (use_intersection f). apply crossing_top; assumption. }
  assert (Hb : y destination < y (pb_min b)
               /\ x (pb_min b) <= x destination <= x (pb_max b) ->
               EdgeResult f origin destination (bottomLeft b) (bottomRight b)
                 (clampingV2 f origin destination b)).
  { intros [H1 H2]. classify_edges Hw.
    apply (use_intersection f). apply crossing_bottom; assumption. }
  assert (Hl : x destination < x (pb_min b)
               /\ y (pb_min b) <= y destination <= y (pb_max b) ->
               EdgeResult f origin destination (bottomLeft b) (topLeft b)
                 (clampingV2 f origin destination b)).
  { intros [H1 H2]. classify_edges Hw.
    apply (use_intersection f). apply crossing_left; assumption. }
  assert (Hr : x destination > x (pb_max b)
               /\ y (pb_min b) <= y destination <= y (pb_max b) ->
               EdgeResult f origin destination (bottomRight b) (topRight b)
                 (clampingV2 f origin destination b)).
  { intros [H1 H2]. classify_edges Hw.
    apply (use_intersection f). apply crossing_right; assumption. }
  split; [| repeat split; assumption].
  intros e He. unfold Inside in Hd.
  destruct (Rlt_dec (y (pb_max b)) (y destination)) as [Htop | Htop];
    destruct (Rlt_dec (x (pb_max b)) (x destination)) as [Hright | Hright];
    destruct (Rlt_dec (y destination) (y (pb_min b))) as [Hbot | Hbot];
    destruct (Rlt_dec (x destination) (x (pb_min b))) as [Hleft | Hleft];
    try lra;
    first
      [ rewrite Htr in He by lra; discriminate He
      | rewrite Htl in He by lra; discriminate He
      | rewrite Hbr in He by lra; discriminate He
      | rewrite Hbl in He by lra; discriminate He
      | destruct Ht as [p [Hp _]]; [lra | rewrite Hp in He; discriminate He]
      | destruct Hb as [p [Hp _]]; [lra | rewrite Hp in He; discriminate He]
      | destruct Hl as [p [Hp _]]; [lra | rewrite Hp in He; discriminate He]
      | destruct Hr as [p [Hp _]]; [lra | rewrite Hp in He; discriminate He] ].
Qed.

(** ** The model of the segment intersection meets its contract *)

Lemma OnSegment_inv (p a b : Point) :
  OnSegment p a b ->
  exists t, 0 <= t <= 1
    /\ x p = x a + (x b - x a) * t
    /\ y p = y a + (y b - y a) * t.
Proof.
  intros [t [Ht ->]]. exists t. simpl. auto.
Qed.

Lemma OnSegment_start (a b : Point) : OnSegment a a b.
Proof. apply OnSegment_coords with 0; lra. Qed.

Lemma OnSegment_end (a b : Point) : OnSegment b a b.
Proof. apply OnSegment_coords with 1; lra. Qed.

Lemma unit_quotient (n d : R) : 0 < d -> 0 <= n <= d -> 0 <= n / d <= 1.
Proof.
  intros Hd Hn. split.
  - apply Rmult_le_reg_r with d; [exact Hd |].
    unfold Rdiv; rewrite Rmult_assoc, Rinv_l by lra. lra.
  - apply Rmult_le_reg_r with d; [exact Hd |].
    unfold Rdiv; rewrite Rmult_assoc, Rinv_l by lra. lra.
Qed.

Lemma unit_quotient_neg (n d : R) : d < 0 -> d <= n <= 0 -> 0 <= n / d <= 1.
Proof.
  intros Hd Hn.
  replace (n / d) with ((- n) / (- d)) by (field; lra).
  apply unit_quotient; lra.
Qed.

Lemma onSegment_OnSegment (p a b : Point) :
  onSegment p a b = true <-> OnSegment p a b.
Proof.
  unfold onSegment, cross, vectorSubtraction; simpl.
  rewrite !andb_true_iff.
  split.
  - intros [[[[Hc H1] H2] H3] H4].
    destruct (NumFacts.eqb_spec
                ((x p - x a) * (y b - y a) - (y p - y a) * (x b - x a)) 0)
      as [Hc' |]; [clear Hc | discriminate].
    destruct (NumFacts.leb_spec (Rmin (x a) (x b)) (x p)) as [H1' |]; [| discriminate].
    destruct (NumFacts.leb_spec (x p) (Rmax (x a) (x b))) as [H2' |]; [| discriminate].
    destruct (NumFacts.leb_spec (Rmin (y a) (y b)) (y p)) as [H3' |]; [| discriminate].
    destruct (NumFacts.leb_spec (y p) (Rmax (y a) (y b))) as [H4' |]; [| discriminate].
    clear H1 H2 H3 H4.
    unfold Rmin, Rmax in *.
    destruct (Req_dec_T (x a) (x b)) as [Ex | Ex].
    + destruct (Req_dec_T (y a) (y b)) as [Ey | Ey].
      * apply OnSegment_coords with 0; [lra | |];
          destruct (Rle_dec (x a) (x b)); destruct (Rle_dec (y a) (y b)); lra.
      * assert (Hxp : x p = x a).
        { assert (H0 : (x p - x a) * (y b - y a) = 0) by (rewrite <- Ex in Hc'; lra).
          apply Rmult_integral in H0. destruct H0; lra. }
        apply OnSegment_coords with ((y p - y a) / (y b - y a)).
        -- destruct (Rle_dec (y a) (y b)).
           ++ apply unit_quotient; lra.
           ++ apply unit_quotient_neg; lra.
        -- rewrite Hxp, <- Ex. ring.
        -- field; lra.
    + apply OnSegment_coords with ((x p - x a) / (x b - x a)).
      * destruct (Rle_dec (x a) (x b)).
        -- apply unit_quotient; lra.
        -- apply unit_quotient_neg; lra.
      * field; lra.
      * apply Rmult_eq_reg_r with (x b - x a); [| lra].
        transitivity (y a * (x b - x a) + (y b - y a) * (x p - x a));
          [lra | field; lra].
  - intros H. apply OnSegment_inv in H. destruct H as [t [Ht [Hx Hy]]].
    assert (Hc : (x p - x a) * (y b - y a) - (y p - y a) * (x b - x a) = 0)
      by (rewrite Hx, Hy; ring).
    unfold Rmin, Rmax.
    repeat split.
    + destruct (NumFacts.eqb_spec
                  ((x p - x a) * (y b - y a) - (y p - y a) * (x b - x a)) 0);
        [reflexivity | contradiction].
    + destruct (NumFacts.leb_spec (if Rle_dec (x a) (x b) then x a else x b) (x p))
        as [| Hn]; [reflexivity | exfalso; apply Hn].
      destruct (Rle_dec (x a) (x b)); nra.
    + destruct (NumFacts.leb_spec (x p) (if Rle_dec (x a) (x b) then x b else x a))
        as [| Hn]; [reflexivity | exfalso; apply Hn].
      destruct (Rle_dec (x a) (x b)); nra.
    + destruct (NumFacts.leb_spec (if Rle_dec (y a) (y b) then y a else y b) (y p))
        as [| Hn]; [reflexivity | exfalso; apply Hn].
      destruct (Rle_dec (y a) (y b)); nra.
    + destruct (NumFacts.leb_spec (y p) (if Rle_dec (y a) (y b) then y b else y a))
        as [| Hn]; [reflexivity | exfalso; apply Hn].
      destruct (Rle_dec (y a) (y b)); nra.
Qed.

(** Two segments on one line, the second [k] times the first in direction,
    with a common point: an end of the second is on the first, or the start
    of the first is on the second. *)
Lemma collinear_overlap (a1 a2 r1 r2 c1 c2 s1 s2 t u k : R) :
  0 <= t <= 1 -> 0 <= u <= 1 ->
  s1 = k * r1 -> s2 = k * r2 ->
  a1 + r1 * t = c1 + s1 * u ->
  a2 + r2 * t = c2 + s2 * u ->
  (exists v, 0 <= v <= 1 /\ c1 = a1 + r1 * v /\ c2 = a2 + r2 * v)
  \/ (exists v, 0 <= v <= 1 /\ c1 + s1 = a1 + r1 * v /\ c2 + s2 = a2 + r2 * v)
  \/ (exists v, 0 <= v <= 1 /\ a1 = c1 + s1 * v /\ a2 = c2 + s2 * v).
Proof.
  intros Ht Hu Hs1 Hs2 H1 H2. subst s1 s2.
  set (g := t - u * k).
  assert (Hc1 : c1 = a1 + r1 * g) by (unfold g; lra).
  assert (Hc2 : c2 = a2 + r2 * g) by (unfold g; lra).
  destruct (Rle_dec 0 g) as [Hg0 | Hg0]; [destruct (Rle_dec g 1) as [Hg1 | Hg1] |].
  - left. exists g. auto.
  - (* g > 1, so k < 0 and g + k <= 1 *)
    assert (Hk : k < 0) by (unfold g in *; nra).
    destruct (Rle_dec 0 (g + k)) as [Hgk | Hgk].
    + right; left. exists (g + k).
      split; [unfold g in *; nra |]. split; lra.
    + right; right. exists (g / - k).
      split; [apply unit_quotient; lra |].
      split; [rewrite Hc1 | rewrite Hc2]; field; lra.
  - (* g < 0, so k > 0 and g + k >= 0 *)
    assert (Hk : 0 < k) by (unfold g in *; nra).
    destruct (Rle_dec (g + k) 1) as [Hgk | Hgk].
    + right; left. exists (g + k).
      split; [unfold g in *; nra |]. split; lra.
    + right; right. exists (- g / k).
      split; [apply unit_quotient; lra |].
      split; [rewrite Hc1 | rewrite Hc2]; field; lra.
Qed.

(** A vector of zero cross product with a non-zero vector is a multiple of
    it. *)
Lemma parallel_multiple (r1 r2 s1 s2 : R) :
  r1 * s2 - r2 * s1 = 0 -> r1 <> 0 \/ r2 <> 0 ->
  exists k, s1 = k * r1 /\ s2 = k * r2.
Proof.
  intros Hc [H | H].
  - exists (s1 / r1). split; [field; exact H |].
    apply Rmult_eq_reg_r with r1; [| exact H].
    transitivity (r1 * s2); [ring |]. transitivity (r2 * s1); [lra | field; exact H].
  - exists (s2 / r2). split; [| field; exact H].
    apply Rmult_eq_reg_r with r2; [| exact H].
    transitivity (r2 * s1); [ring |]. transitivity (r1 * s2); [lra | field; exact H].
Qed.

Lemma parallel_share_endpoint (p a b c d : Point) :
  cross (vectorSubtraction b a) (vectorSubtraction d c) = 0 ->
  OnSegment p a b -> OnSegment p c d ->
  OnSegment c a b \/ OnSegment d a b \/ OnSegment a c d.
Proof.
  unfold cross, vectorSubtraction; simpl. intros Hc H1 H2.
  destruct (Req_dec_T (x b - x a) 0) as [Ex | Ex];
    [destruct (Req_dec_T (y b - y a) 0) as [Ey | Ey] |].
  - (* the first segment is the point [a] *)
    right; right.
    apply OnSegment_inv in H1. destruct H1 as [t [Ht [Hx Hy]]].
    apply OnSegment_inv in H2. destruct H2 as [u [Hu [Hx2 Hy2]]].
    rewrite Ex in Hx. rewrite Ey in Hy.
    apply OnSegment_coords with u; [exact Hu | lra | lra].
  - apply OnSegment_inv in H1. destruct H1 as [t [Ht [Hx Hy]]].
    apply OnSegment_inv in H2. destruct H2 as [u [Hu [Hx2 Hy2]]].
    destruct (parallel_multiple _ _ _ _ Hc (or_intror Ey)) as [k [Hk1 Hk2]].
    destruct (collinear_overlap (x a) (y a) (x b - x a) (y b - y a) (x c) (y c)
                (x d - x c) (y d - y c) t u k Ht Hu Hk1 Hk2)
      as [[v [Hv [E1 E2]]] | [[v [Hv [E1 E2]]] | [v [Hv [E1 E2]]]]]; try lra.
    + left. apply OnSegment_coords with v; [exact Hv | lra | lra].
    + right; left. apply OnSegment_coords with v; [exact Hv | lra | lra].
    + right; right. apply OnSegment_coords with v; [exact Hv | lra | lra].
  - apply OnSegment_inv in H1. destruct H1 as [t [Ht [Hx Hy]]].
    apply OnSegment_inv in H2. destruct H2 as [u [Hu [Hx2 Hy2]]].
    destruct (parallel_multiple _ _ _ _ Hc (or_introl Ex)) as [k [Hk1 Hk2]].
    destruct (collinear_overlap (x a) (y a) (x b - x a) (y b - y a) (x c) (y c)
                (x d - x c) (y d - y c) t u k Ht Hu Hk1 Hk2)
      as [[v [Hv [E1 E2]]] | [[v [Hv [E1 E2]]] | [v [Hv [E1 E2]]]]]; try lra.
    + left. apply OnSegment_coords with v; [exact Hv | lra | lra].
    + right; left. apply OnSegment_coords with v; [exact Hv | lra | lra].
    + right; right. apply OnSegment_coords with v; [exact Hv | lra | lra].
Qed.

Lemma last_cons {A : Type} (l : list A) (a b : A) : last (b :: l) a = last l b.
Proof.
  revert a b. induction l as [| c l IH]; intros a b; [reflexivity |].
  change (last (b :: c :: l) a) with (last (c :: l) a).
  rewrite (IH a c), (IH b c). reflexivity.
Qed.

Lemma last_In {A : Type} (l : list A) (a : A) : In (last l a) (a :: l).
Proof.
  revert a. induction l as [| b l IH]; intros a; [left; reflexivity |].
  right. rewrite last_cons. apply IH.
Qed.

Lemma filter_nonempty {A : Type} (g : A -> bool) (l : list A) (a : A) :
  In a l -> g a = true -> filter g l <> [].
Proof.
  intros Hin Hg E.
  assert (H : In a (filter g l)) by (apply filter_In; auto).
  rewrite E in H. exact H.
Qed.

(** Cramer's rule for the parameters of the common point of two segments
    that are not parallel. *)
Lemma crossing_parameters (a1 a2 r1 r2 c1 c2 s1 s2 t u : R) :
  r1 * s2 - r2 * s1 <> 0 ->
  a1 + r1 * t = c1 + s1 * u ->
  a2 + r2 * t = c2 + s2 * u ->
  ((c1 - a1) * s2 - (c2 - a2) * s1) / (r1 * s2 - r2 * s1) = t
  /\ ((c1 - a1) * r2 - (c2 - a2) * r1) / (r1 * s2 - r2 * s1) = u.
Proof.
  intros Hd H1 H2.
  assert (E1 : c1 - a1 = r1 * t - s1 * u) by lra.
  assert (E2 : c2 - a2 = r2 * t - s2 * u) by lra.
  rewrite E1, E2. split; field; exact Hd.
Qed.

#[export] Instance getLineSegmentIntersection_contract :
  SegmentIntersection getLineSegmentIntersection.
Proof.
  constructor.
  - (* every common point is found *)
    intros a b c d p H1 H2. unfold getLineSegmentIntersection.
    destruct (NumFacts.eqb_spec
                (cross (vectorSubtraction b a) (vectorSubtraction d c)) 0) as [Hc | Hc].
    + set (g := fun q => onSegment q a b && onSegment q c d).
      assert (Hne : filter g [c; d; a; b] <> []).
      { destruct (parallel_share_endpoint p a b c d Hc H1 H2) as [H | [H | H]].
        - apply filter_nonempty with c; [simpl; auto |].
          unfold g. apply andb_true_iff.
          split; apply onSegment_OnSegment; [exact H | apply OnSegment_start].
        - apply filter_nonempty with d; [simpl; auto |].
          unfold g. apply andb_true_iff.
          split; apply onSegment_OnSegment; [exact H | apply OnSegment_end].
        - apply filter_nonempty with a; [simpl; auto |].
          unfold g. apply andb_true_iff.
          split; apply onSegment_OnSegment; [apply OnSegment_start | exact H]. }
      destruct (filter g [c; d; a; b]); [congruence | reflexivity].
    + apply OnSegment_inv in H1. destruct H1 as [t [Ht [Hx Hy]]].
      apply OnSegment_inv in H2. destruct H2 as [u [Hu [Hx2 Hy2]]].
      unfold cross, vectorSubtraction in *; simpl in *.
      destruct (crossing_parameters (x a) (y a) (x b - x a) (y b - y a)
                  (x c) (y c) (x d - x c) (y d - y c) t u Hc) as [Et Eu];
        [lra | lra |].
      rewrite Et, Eu.
      destruct (NumFacts.leb_spec 0 t); [| lra].
      destruct (NumFacts.leb_spec t 1); [| lra].
      destruct (NumFacts.leb_spec 0 u); [| lra].
      destruct (NumFacts.leb_spec u 1); [| lra].
      reflexivity.
  - (* an intersection comes with its kind *)
    intros a b c d. unfold getLineSegmentIntersection.
    destruct (_ =? 0).
    + destruct (filter _ _); simpl; [discriminate | discriminate].
    + destruct (_ && _); simpl; discriminate.
  - (* a reported point is a common point *)
    intros a b c d p. unfold getLineSegmentIntersection.
    destruct (NumFacts.eqb_spec
                (cross (vectorSubtraction b a) (vectorSubtraction d c)) 0) as [Hc | Hc].
    + destruct (filter _ _); simpl; discriminate.
    + unfold cross, vectorSubtraction in *; simpl in *.
      set (D := (x b - x a) * (y d - y c) - (y b - y a) * (x d - x c)) in *.
      set (t := ((x c - x a) * (y d - y c) - (y c - y a) * (x d - x c)) / D).
      set (u := ((x c - x a) * (y b - y a) - (y c - y a) * (x b - x a)) / D).
      destruct (NumFacts.leb_spec 0 t); [| simpl; discriminate].
      destruct (NumFacts.leb_spec t 1); [| simpl; discriminate].
      destruct (NumFacts.leb_spec 0 u); [| simpl; discriminate].
      destruct (NumFacts.leb_spec u 1); [| simpl; discriminate].
      simpl. intros E. injection E as <-.
      split.
      * apply OnSegment_coords with t; [lra | reflexivity | reflexivity].
      * apply OnSegment_coords with u; [lra | |];
          unfold vectorAddition, multiplyByScalar, t, u, D; simpl; field; exact Hc.
  - (* the end point of a reported interval is a common point *)
    intros a b c d p q. unfold getLineSegmentIntersection.
    destruct (_ =? 0).
    + set (g := fun q => onSegment q a b && onSegment q c d).
      destruct (filter g [c; d; a; b]) as [| p0 rest] eqn:E; simpl; [discriminate |].
      intros Hq. injection Hq as _ <-.
      assert (Hin : In (last rest p0) (filter g [c; d; a; b]))
        by (rewrite E; apply last_In).
      apply filter_In in Hin. destruct Hin as [_ Hg].
      unfold g in Hg. apply andb_true_iff in Hg.
      split; apply onSegment_OnSegment; tauto.
    + destruct (_ && _); simpl; discriminate.
Qed.

(** ** The theorems at concrete calls *)

Lemma limitedCamera_accepts_10_20 :
  Notified limitedCamera (setPosition {| x := 10; y := 20 |} limitedCamera).
Proof.
  unfold Notified. rewrite setPosition_accept.
  - apply app_one_neq.
  - intros _. apply viewPortWithinPositionBoundary_corners.
    intros corner Hin. simpl in Hin.
    unfold transformViewPort2WorldSpaceWithCameraAttributes, Inside; simpl.
    rewrite cos_0, sin_0.
    destruct Hin as [<- | [<- | [<- | [<- | []]]]]; simpl; lra.
  - apply withinPositionBoundary_Inside. unfold Inside; simpl; lra.
Defined.

(** C1 at the default camera limiting the entire viewport, moved to
    (10,20). *)
Lemma setPosition_accepted_within_witness :
  Notified limitedCamera (setPosition {| x := 10; y := 20 |} limitedCamera)
  /\ position (setPosition {| x := 10; y := 20 |} limitedCamera) = {| x := 10; y := 20 |}
  /\ Inside (position (setPosition {| x := 10; y := 20 |} limitedCamera))
       (positionBoundary (setPosition {| x := 10; y := 20 |} limitedCamera))
  /\ (limitEntireViewPort limitedCamera = true ->
      forall corner,
        In corner (viewPortCorners (viewPortWidth limitedCamera) (viewPortHeight limitedCamera)) ->
        Inside (transformViewPort2WorldSpace corner
                  (setPosition {| x := 10; y := 20 |} limitedCamera))
          (positionBoundary (setPosition {| x := 10; y := 20 |} limitedCamera))).
Proof.
  split; [exact limitedCamera_accepts_10_20 |].
  exact (setPosition_accepted_within {| x := 10; y := 20 |} limitedCamera
           limitedCamera_accepts_10_20).
Defined.

Lemma rotationWithinBoundary_unitArc_2 : rotationWithinBoundary 2 unitArc = false.
Proof.
  pose proof PI_gt_3 as Hpi.
  unfold rotationWithinBoundary, unitArc; simpl.
  rewrite normalizeAngle_id by lra.
  num_eval; reflexivity.
Defined.

(** C2 at a [setPosition] to (15,0) in the square from (-10,-10) to (10,10),
    a [setZoomLevel] to 20 in the default zoom boundary, and a [setRotation]
    to 2 in the arc from 0 to 1. *)
Lemma violating_call_is_silent_witness :
  (Violates (SetPosition {| x := 15; y := 0 |}) smallCamera
   /\ call (SetPosition {| x := 15; y := 0 |}) smallCamera = smallCamera)
  /\ (Violates (SetZoomLevel 20) defaultCamera
      /\ call (SetZoomLevel 20) defaultCamera = defaultCamera)
  /\ (Violates (SetRotation 2) arcCamera
      /\ call (SetRotation 2) arcCamera = arcCamera).
Proof.
  assert (H1 : Violates (SetPosition {| x := 15; y := 0 |}) smallCamera).
  { right. unfold Inside; simpl. lra. }
  assert (H2 : Violates (SetZoomLevel 20) defaultCamera).
  { simpl. lra. }
  assert (H3 : Violates (SetRotation 2) arcCamera).
  { exists unitArc. split; [reflexivity | exact rotationWithinBoundary_unitArc_2]. }
  split; [split; [exact H1 | exact (violating_call_is_silent _ _ H1)] |].
  split; [split; [exact H2 | exact (violating_call_is_silent _ _ H2)] |].
  split; [exact H3 | exact (violating_call_is_silent _ _ H3)].
Defined.

Lemma unitArc_Normalized : Normalized unitArc.
Proof.
  pose proof PI_gt_3 as Hpi. unfold Normalized, unitArc; simpl. lra.
Defined.

(** C4, amended, at the angle 2 and the arc from 0 to 1. *)
Lemma clampRotation_within_normalized_witness :
  Normalized unitArc
  /\ rotationWithinBoundary (clampRotation 2 unitArc) unitArc = true
  /\ (forall deltaRotation this,
        _rotationBoundary this = Some unitArc ->
        Notified this (setRotationBy deltaRotation this)
        /\ rotation (setRotationBy deltaRotation this)
           = normalizeAngle
               (clampRotation (normalizeAngle (rotation this + deltaRotation)) unitArc)).
Proof.
  split; [exact unitArc_Normalized |].
  exact (clampRotation_within_normalized 2 unitArc unitArc_Normalized).
Defined.

(** C6 at the point (3,4) and the default camera. *)
Lemma viewPort_world_roundtrip_witness :
  0 < zoomLevel defaultCamera
  /\ transformWorldSpace2ViewPort
       (transformViewPort2WorldSpace {| x := 3; y := 4 |} defaultCamera) defaultCamera
     = {| x := 3; y := 4 |}.
Proof.
  assert (H : 0 < zoomLevel defaultCamera) by (simpl; lra).
  split; [exact H | exact (viewPort_world_roundtrip {| x := 3; y := 4 |} defaultCamera H)].
Defined.

(** C8 at the default viewport and position boundary. *)
Lemma getMinZoomLevel_is_max_witness :
  x (pb_min defaultBoundary) < x (pb_max defaultBoundary)
  /\ y (pb_min defaultBoundary) < y (pb_max defaultBoundary)
  /\ getMinZoomLevel 500 500 defaultBoundary
     = Rmax (500 / (x (pb_max defaultBoundary) - x (pb_min defaultBoundary)))
         (500 / (y (pb_max defaultBoundary) - y (pb_min defaultBoundary))).
Proof.
  assert (H1 : x (pb_min defaultBoundary) < x (pb_max defaultBoundary)) by (simpl; lra).
  assert (H2 : y (pb_min defaultBoundary) < y (pb_max defaultBoundary)) by (simpl; lra).
  split; [exact H1 |]. split; [exact H2 |].
  exact (proj1 (getMinZoomLevel_is_max 500 500 defaultBoundary H1 H2)).
Defined.

(** C10 at a position boundary from (10,10) to (20,20) and a zoom boundary
    from 2 to 5. *)
Lemma constructor_ignores_boundaries_witness :
  ~ Inside {| x := 0; y := 0 |} farBoundary
  /\ ~ (zb_min highZoom <= 1 <= zb_max highZoom)
  /\ position farCamera = {| x := 0; y := 0 |}
  /\ zoomLevel farCamera = 1
  /\ withinPositionBoundary (position farCamera) (positionBoundary farCamera) = false
  /\ withinZoomLevelBoundary (zoomLevel farCamera) (zoomLevelBoundary farCamera) = false.
Proof.
  assert (H1 : ~ Inside {| x := 0; y := 0 |} farBoundary) by (unfold Inside; simpl; lra).
  assert (H2 : ~ (zb_min highZoom <= 1 <= zb_max highZoom)) by (simpl; lra).
  split; [exact H1 |]. split; [exact H2 |].
  destruct (constructor_ignores_boundaries None None farBoundary highZoom)
    as [Hp0 [Hz0 [_ [_ [_ [_ [Hp Hz]]]]]]].
  split; [exact Hp0 |]. split; [exact Hz0 |].
  split; [exact (Hp H1) | exact (Hz H2)].
Defined.

(** C7 at the default viewport and boundary, zoom level 1 and rotation 0: a
    target at (900,0) has corners outside, a target at (0,0) has none. *)
Lemma clampingEntireViewPort_largest_deltas_witness :
  (~ (forall corner, In corner (viewPortCorners 500 500) ->
        Inside (transformViewPort2WorldSpaceWithCameraAttributes corner
                  {| x := 900; y := 0 |} 1 0) defaultBoundary)
   /\ exists dx dy,
        In dx (cornerDeltas 500 500 {| x := 900; y := 0 |} 0 1 defaultBoundary)
        /\ In dy (cornerDeltas 500 500 {| x := 900; y := 0 |} 0 1 defaultBoundary)
        /\ (forall d, In d (cornerDeltas 500 500 {| x := 900; y := 0 |} 0 1 defaultBoundary) ->
            Rabs (x d) <= Rabs (x dx))
        /\ (forall d, In d (cornerDeltas 500 500 {| x := 900; y := 0 |} 0 1 defaultBoundary) ->
            Rabs (y d) <= Rabs (y dy))
        /\ clampingEntireViewPort 500 500 {| x := 900; y := 0 |} 0 1 defaultBoundary
           = vectorAddition {| x := x dx; y := y dy |} {| x := 900; y := 0 |})
  /\ ((forall corner, In corner (viewPortCorners 500 500) ->
         Inside (transformViewPort2WorldSpaceWithCameraAttributes corner
                   {| x := 0; y := 0 |} 1 0) defaultBoundary)
      /\ clampingEntireViewPort 500 500 {| x := 0; y := 0 |} 0 1 defaultBoundary
         = {| x := 0; y := 0 |}).
Proof.
  assert (H1 : ~ (forall corner, In corner (viewPortCorners 500 500) ->
                    Inside (transformViewPort2WorldSpaceWithCameraAttributes corner
                              {| x := 900; y := 0 |} 1 0) defaultBoundary)).
  { intros H. specialize (H {| x := 500 / 2; y := 500 / 2 |}).
    unfold transformViewPort2WorldSpaceWithCameraAttributes, Inside in H; simpl in H.
    rewrite cos_0, sin_0 in H.
    assert (Hin : 500 / 2 * (1 / 1) * 1 - 500 / 2 * (1 / 1) * 0 + 900 <= 1000).
    { apply H. auto. }
    lra. }
  assert (H2 : forall corner, In corner (viewPortCorners 500 500) ->
                 Inside (transformViewPort2WorldSpaceWithCameraAttributes corner
                           {| x := 0; y := 0 |} 1 0) defaultBoundary).
  { intros corner Hin. simpl in Hin.
    unfold transformViewPort2WorldSpaceWithCameraAttributes, Inside; simpl.
    rewrite cos_0, sin_0.
    destruct Hin as [<- | [<- | [<- | [<- | []]]]]; simpl; lra. }
  split.
  - split; [exact H1 |].
    exact (proj1 (clampingEntireViewPort_largest_deltas 500 500 {| x := 900; y := 0 |}
                    0 1 defaultBoundary) H1).
  - split; [exact H2 |].
    exact (proj2 (clampingEntireViewPort_largest_deltas 500 500 {| x := 0; y := 0 |}
                    0 1 defaultBoundary) H2).
Defined.

(** C5 at the model of the segment intersection, the square from (-10,-10)
    to (10,10), the origin (0,0) and the destination (0,20) beyond the top
    edge. *)
Lemma clampingV2_from_inside_witness :
  SegmentIntersection getLineSegmentIntersection
  /\ x (pb_min smallBoundary) <= x (pb_max smallBoundary)
  /\ y (pb_min smallBoundary) <= y (pb_max smallBoundary)
  /\ Inside {| x := 0; y := 0 |} smallBoundary
  /\ ~ Inside {| x := 0; y := 20 |} smallBoundary
  /\ (forall e, clampingV2 getLineSegmentIntersection {| x := 0; y := 0 |}
                  {| x := 0; y := 20 |} smallBoundary <> inl e)
  /\ EdgeResult getLineSegmentIntersection {| x := 0; y := 0 |} {| x := 0; y := 20 |}
       (topLeft smallBoundary) (topRight smallBoundary)
       (clampingV2 getLineSegmentIntersection {| x := 0; y := 0 |}
          {| x := 0; y := 20 |} smallBoundary).
Proof.
  assert (H1 : x (pb_min smallBoundary) <= x (pb_max smallBoundary)) by (simpl; lra).
  assert (H2 : y (pb_min smallBoundary) <= y (pb_max smallBoundary)) by (simpl; lra).
  assert (H3 : Inside {| x := 0; y := 0 |} smallBoundary) by (unfold Inside; simpl; lra).
  assert (H4 : ~ Inside {| x := 0; y := 20 |} smallBoundary) by (unfold Inside; simpl; lra).
  split; [exact getLineSegmentIntersection_contract |].
  split; [exact H1 |]. split; [exact H2 |]. split; [exact H3 |]. split; [exact H4 |].
  destruct (clampingV2_from_inside getLineSegmentIntersection
              getLineSegmentIntersection_contract
              {| x := 0; y := 0 |} {| x := 0; y := 20 |} smallBoundary H1 H2 H3 H4)
    as [Hno [_ [_ [_ [_ [Htop _]]]]]].
  split; [exact Hno |].
  apply Htop. simpl. lra.
Defined.

(** ** Scenarios of the specification *)

(** Clamping 3π/2 to the arc from 0 to π, equally far from both ends, gives
    the start when [startForTieBreak] is set and the end otherwise. *)
Example clampRotation_tie_break (tie : bool) :
  clampRotation (3 * PI / 2)
    {| rb_start := 0; rb_end := PI; positiveDirection := true; startForTieBreak := tie |}
  = if tie then 0 else PI.
Proof.
  pose proof PI_gt_3 as Hpi.
  assert (Hn : normalizeAngle (3 * PI / 2) = 3 * PI / 2) by (apply normalizeAngle_id; lra).
  assert (Hn0 : normalizeAngle 0 = 0) by (apply normalizeAngle_id; lra).
  assert (Hnp : normalizeAngle PI = PI) by (apply normalizeAngle_id; lra).
  assert (Hs0 : angleSpan 0 (3 * PI / 2) = - (PI / 2)).
  { unfold angleSpan. rewrite Hn, Hn0.
    rewrite Rabs_eval_pos by lra. num_eval; lra. }
  assert (Hsp : angleSpan PI (3 * PI / 2) = PI / 2).
  { unfold angleSpan. rewrite Hn, Hnp.
    rewrite Rabs_eval_pos by lra. num_eval; lra. }
  unfold clampRotation, rotationWithinBoundary; simpl.
  rewrite Hn, Hs0, Hsp.
  rewrite Rabs_eval_neg, Rabs_eval_pos by lra.
  num_eval; destruct tie; reflexivity.
Qed.

(** In the square from (-10,-10) to (10,10), [setPositionBy] of (25,0) from
    (0,0) moves the camera to (10,0). *)
Example setPositionBy_clamps :
  position (setPositionBy {| x := 25; y := 0 |} smallCamera) = {| x := 10; y := 0 |}.
Proof.
  unfold setPositionBy; simpl.
  assert (Hc : simpleClamping (vectorAddition {| x := 0; y := 0 |} {| x := 25; y := 0 |})
                 smallBoundary = {| x := 10; y := 0 |}).
  { unfold simpleClamping.
    replace (withinPositionBoundary _ smallBoundary) with false
      by (symmetry; apply withinPositionBoundary_outside; unfold Inside; simpl; lra).
    simpl. apply point_eq; simpl.
    - rewrite Rmin_right by lra. rewrite Rmax_left by lra. reflexivity.
    - replace (0 + 0) with 0 by ring.
      rewrite Rmin_left by lra. rewrite Rmax_left by lra. reflexivity. }
  change (_positionBoundary smallCamera) with smallBoundary.
  change (_position smallCamera) with {| x := 0; y := 0 |}.
  rewrite Hc.
  rewrite setPosition_accept.
  - reflexivity.
  - intros H; discriminate H.
  - apply withinPositionBoundary_Inside. unfold Inside; simpl; lra.
Qed.

(** With the model of the segment intersection, the line-intersection clamp
    of a move from (0,0) to (0,20) in that square stops at (0,10). *)
Example clampingV2_top_edge :
  clampingV2 getLineSegmentIntersection {| x := 0; y := 0 |} {| x := 0; y := 20 |}
    smallBoundary
  = inr {| x := 0; y := 10 |}.
Proof.
  unfold clampingV2.
  replace (withinPositionBoundary _ smallBoundary) with false
    by (symmetry; apply withinPositionBoundary_outside; unfold Inside; simpl; lra).
  cbn [x y pb_min pb_max smallBoundary].
  num_eval; cbn [andb orb].
  unfold getLineSegmentIntersection, cross, vectorSubtraction; cbn [x y].
  num_eval; cbn [andb negb intersects intersections].
  f_equal. apply point_eq; simpl; field.
Qed.

(** At zoom level 1 and rotation 0 the transform is the translation by the
    camera position. *)
Lemma transform_unit (p c : Point) :
  transformViewPort2WorldSpaceWithCameraAttributes p c 1 0
  = {| x := x p + x c; y := y p + y c |}.
Proof.
  unfold transformViewPort2WorldSpaceWithCameraAttributes.
  apply point_eq; simpl; rewrite cos_0, sin_0; field.
Qed.

Lemma simpleClamping_inside (p : Point) (b : PositionBoundary) :
  Inside p b -> simpleClamping p b = p.
Proof.
  intros H. unfold simpleClamping.
  apply withinPositionBoundary_Inside in H. rewrite H. reflexivity.
Qed.

Lemma simpleClamping_outside (p : Point) (b : PositionBoundary) :
  ~ Inside p b ->
  simpleClamping p b
  = {| x := Rmax (Rmin (x p) (x (pb_max b))) (x (pb_min b));
       y := Rmax (Rmin (y p) (y (pb_max b))) (y (pb_min b)) |}.
Proof.
  intros H. unfold simpleClamping.
  apply withinPositionBoundary_outside in H. rewrite H. reflexivity.
Qed.

(** The whole-viewport clamp of a target at (900,0), default viewport and
    boundary, zoom level 1 and rotation 0: the right corners are 150 beyond
    the boundary and the target is moved back to (750,0). *)
Example clampingEntireViewPort_right :
  clampingEntireViewPort 500 500 {| x := 900; y := 0 |} 0 1 defaultBoundary
  = {| x := 750; y := 0 |}.
Proof.
  assert (Hd : cornerDeltas 500 500 {| x := 900; y := 0 |} 0 1 defaultBoundary
               = [ {| x := 0; y := 0 |}; {| x := -150; y := 0 |};
                   {| x := 0; y := 0 |}; {| x := -150; y := 0 |} ]).
  { unfold cornerDeltas, viewPortCorners, map.
    rewrite !transform_unit. cbn [x y].
    rewrite (simpleClamping_inside {| x := - (500) / 2 + 900; y := 500 / 2 + 0 |})
      by (unfold Inside; simpl; lra).
    rewrite (simpleClamping_inside {| x := - (500) / 2 + 900; y := - (500) / 2 + 0 |})
      by (unfold Inside; simpl; lra).
    rewrite !simpleClamping_outside by (unfold Inside; simpl; lra).
    cbn [x y pb_min pb_max defaultBoundary].
    rewrite !(Rmin_right (500 / 2 + 900) 1000) by lra.
    rewrite !(Rmax_left 1000 (-1000)) by lra.
    rewrite (Rmin_left (500 / 2 + 0) 1000) by lra.
    rewrite (Rmax_left (500 / 2 + 0) (-1000)) by lra.
    rewrite (Rmin_left (- (500) / 2 + 0) 1000) by lra.
    rewrite (Rmax_left (- (500) / 2 + 0) (-1000)) by lra.
    unfold vectorSubtraction; cbn [x y].
    repeat (f_equal; try (apply point_eq; simpl; lra)). }
  assert (Hout : viewPortWithinPositionBoundary 500 500 {| x := 900; y := 0 |} 1 0
                   defaultBoundary = false).
  { destruct (viewPortWithinPositionBoundary 500 500 {| x := 900; y := 0 |} 1 0
                defaultBoundary) eqn:E; [| reflexivity].
    exfalso.
    pose proof (proj1 (viewPortWithinPositionBoundary_corners _ _ _ _ _ _) E
                  {| x := 500 / 2; y := 500 / 2 |}) as H.
    rewrite transform_unit in H. unfold Inside in H; simpl in H.
    assert (500 / 2 + 900 <= 1000) by (apply H; auto). lra. }
  destruct (clampingEntireViewPort_outside _ _ _ _ _ _ Hout) as [d0 [rest [E ->]]].
  rewrite Hd in E. injection E as <- <-.
  cbn [largest x y].
  rewrite Rabs_R0, (Rabs_eval_neg (-150)) by lra.
  num_eval. cbn [largest x y].
  apply point_eq; simpl; lra.
Qed.

(** ** Angles *)

Lemma trunc_integer (a : R) : exists z : Z, Num.trunc a = IZR z.
Proof.
  unfold Num.trunc. destruct (Rle_dec 0 a).
  - exists (Int_part a). reflexivity.
  - exists (- Int_part (- a))%Z. rewrite opp_IZR. reflexivity.
Qed.

Lemma normalizeAngle_congruent (a : R) :
  exists k : Z, normalizeAngle a = a + IZR k * (2 * PI).
Proof.
  unfold normalizeAngle, Num.rem.
  destruct (trunc_integer (a / (2 * PI))) as [z Hz]. rewrite Hz.
  destruct (_ >=? 0).
  - exists (- z)%Z. rewrite opp_IZR. ring.
  - exists (- z + 1)%Z. rewrite plus_IZR, opp_IZR. ring.
Qed.

Lemma cos_period_Z (a : R) (k : Z) : cos (a + IZR k * (2 * PI)) = cos a.
Proof.
  destruct (Z_le_gt_dec 0 k) as [Hk | Hk].
  - rewrite <- (Z2Nat.id k Hk), <- INR_IZR_INZ.
    replace (a + INR (Z.to_nat k) * (2 * PI)) with (a + 2 * INR (Z.to_nat k) * PI) by ring.
    apply cos_period.
  - assert (Hk' : (0 <= - k)%Z) by lia.
    rewrite <- (cos_period (a + IZR k * (2 * PI)) (Z.to_nat (- k))).
    rewrite INR_IZR_INZ, (Z2Nat.id _ Hk'), opp_IZR. f_equal. ring.
Qed.

Lemma sin_period_Z (a : R) (k : Z) : sin (a + IZR k * (2 * PI)) = sin a.
Proof.
  destruct (Z_le_gt_dec 0 k) as [Hk | Hk].
  - rewrite <- (Z2Nat.id k Hk), <- INR_IZR_INZ.
    replace (a + INR (Z.to_nat k) * (2 * PI)) with (a + 2 * INR (Z.to_nat k) * PI) by ring.
    apply sin_period.
  - assert (Hk' : (0 <= - k)%Z) by lia.
    rewrite <- (sin_period (a + IZR k * (2 * PI)) (Z.to_nat (- k))).
    rewrite INR_IZR_INZ, (Z2Nat.id _ Hk'), opp_IZR. f_equal. ring.
Qed.

(** Two normalised angles that differ by a whole number of turns are
    equal. *)
Lemma normalized_unique (u v : R) (k : Z) :
  0 <= u < 2 * PI -> 0 <= v < 2 * PI -> u = v + IZR k * (2 * PI) -> u = v.
Proof.
  intros Hu Hv E.
  pose proof two_PI_pos as Hp.
  assert (Hlo : IZR (-1) < IZR k).
  { apply Rmult_lt_reg_r with (2 * PI); [exact Hp |]. simpl. lra. }
  assert (Hhi : IZR k < IZR 1).
  { apply Rmult_lt_reg_r with (2 * PI); [exact Hp |]. simpl. lra. }
  apply lt_IZR in Hlo. apply lt_IZR in Hhi.
  assert (k = 0%Z) by lia. subst k. simpl in E. lra.
Qed.

Lemma normalizeAngle_shift (a : R) (k : Z) :
  normalizeAngle (a + IZR k * (2 * PI)) = normalizeAngle a.
Proof.
  destruct (normalizeAngle_congruent (a + IZR k * (2 * PI))) as [k1 H1].
  destruct (normalizeAngle_congruent a) as [k2 H2].
  apply normalized_unique with (k1 + k - k2)%Z;
    [apply normalizeAngle_range | apply normalizeAngle_range |].
  rewrite H1, H2, minus_IZR, plus_IZR. ring.
Qed.


(** X2: the normalised angle differs from the angle by a whole number of
    turns, so it has the same cosine and sine and rotates every vector the
    same way. *)
Theorem normalizeAngle_same_rotation (a : R) :
  (exists k : Z, normalizeAngle a = a + IZR k * (2 * PI))
  /\ cos (normalizeAngle a) = cos a
  /\ sin (normalizeAngle a) = sin a
  /\ (forall v, rotateVector v (normalizeAngle a) = rotateVector v a).
Proof.
  destruct (normalizeAngle_congruent a) as [k Hk].
  assert (Hc : cos (normalizeAngle a) = cos a) by (rewrite Hk; apply cos_period_Z).
  assert (Hs : sin (normalizeAngle a) = sin a) by (rewrite Hk; apply sin_period_Z).
  split; [exists k; exact Hk |].
  split; [exact Hc |]. split; [exact Hs |].
  intros v. unfold rotateVector. rewrite Hc, Hs. reflexivity.
Qed.

(** X3: [normalizeAngle] has period 2π: adding any whole number of turns,
    positive or negative, to an angle does not change its normal form. *)
Theorem normalizeAngle_periodic (a : R) (k : Z) :
  normalizeAngle (a + IZR k * (2 * PI)) = normalizeAngle a
  /\ normalizeAngle (a + 2 * PI) = normalizeAngle a
  /\ normalizeAngle (a - 2 * PI) = normalizeAngle a.
Proof.
  split; [apply normalizeAngle_shift |].
  split.
  - rewrite <- (normalizeAngle_shift a 1). f_equal. simpl. ring.
  - rewrite <- (normalizeAngle_shift a (-1)). f_equal. simpl. ring.
Qed.

(** The difference of the normal forms, which [angleSpan] wraps. *)
Lemma normalized_difference (from to : R) :
  - (2 * PI) < normalizeAngle to - normalizeAngle from < 2 * PI.
Proof.
  pose proof (normalizeAngle_range from). pose proof (normalizeAngle_range to). lra.
Qed.

(** X4: [angleSpan] returns the difference [d] of the two normalised angles
    when its magnitude is at most π, and [d - 2π] otherwise.  For [d] above π
    that is the short way round, between -π and 0; for [d] below -π it is not:
    the result lies between -4π and -3π, and its magnitude exceeds π. *)
Theorem angleSpan_ranges (from to : R) :
  let d := normalizeAngle to - normalizeAngle from in
  (- PI <= d <= PI /\ angleSpan from to = d)
  \/ (PI < d /\ angleSpan from to = d - 2 * PI /\ - PI < angleSpan from to < 0)
  \/ (d < - PI /\ angleSpan from to = d - 2 * PI
      /\ - (4 * PI) < angleSpan from to < - (3 * PI)).
Proof.
  intros d. pose proof (normalized_difference from to) as Hd. fold d in Hd.
  pose proof PI_RGT_0 as Hpi.
  unfold angleSpan. fold d.
  destruct (Rle_dec (- PI) d) as [Hlo | Hlo]; [destruct (Rle_dec d PI) as [Hhi | Hhi] |].
  - left. split; [lra |].
    destruct (NumFacts.leb_spec (Rabs d) PI) as [_ | Hn]; [reflexivity |].
    exfalso. apply Hn. apply Rabs_le. lra.
  - right; left.
    destruct (NumFacts.leb_spec (Rabs d) PI) as [Ha | _].
    + exfalso. rewrite Rabs_eval_pos in Ha by lra. lra.
    + split; [lra |]. split; lra.
  - right; right.
    destruct (NumFacts.leb_spec (Rabs d) PI) as [Ha | _].
    + exfalso. rewrite Rabs_eval_neg in Ha by lra. lra.
    + split; [lra |]. split; lra.
Qed.

(** X5: for a boundary of normalised bounds and positive direction, an angle
    is inside exactly when its normal form lies on the arc that goes
    counter-clockwise from start to end: between them when start is at most
    end, and from start up to 2π or from 0 up to end when the arc wraps. *)
Theorem rotationWithinBoundary_positive (a : R) (b : RotationBoundary) :
  Normalized b ->
  positiveDirection b = true ->
  (rotationWithinBoundary a b = true <->
   if Rle_dec (rb_start b) (rb_end b)
   then rb_start b <= normalizeAngle a <= rb_end b
   else rb_start b <= normalizeAngle a \/ normalizeAngle a <= rb_end b).
Proof.
  intros [Hs He] Hp.
  pose proof (normalizeAngle_range a) as Hn.
  unfold rotationWithinBoundary. rewrite Hp. cbn [negb andb].
  destruct (Rle_dec (rb_start b) (rb_end b));
    num_cases; split; intros H; try discriminate; try reflexivity; lra.
Qed.

(** X6: for a boundary of normalised bounds and negative direction, an angle
    is inside exactly when its normal form lies on the arc that goes
    clockwise from start to end: from end up to start when end is below
    start, outside the open gap between start and end when start is below
    end, and at start alone when the two are equal. *)
Theorem rotationWithinBoundary_negative (a : R) (b : RotationBoundary) :
  Normalized b ->
  positiveDirection b = false ->
  (rotationWithinBoundary a b = true <->
   if Rlt_dec (rb_end b) (rb_start b)
   then rb_end b <= normalizeAngle a <= rb_start b
   else if Rlt_dec (rb_start b) (rb_end b)
   then normalizeAngle a <= rb_start b \/ rb_end b <= normalizeAngle a
   else normalizeAngle a = rb_start b).
Proof.
  intros [Hs He] Hp.
  pose proof (normalizeAngle_range a) as Hn.
  unfold rotationWithinBoundary. rewrite Hp. cbn [negb andb].
  destruct (Rlt_dec (rb_end b) (rb_start b)); [| destruct (Rlt_dec (rb_start b) (rb_end b))];
    num_cases; split; intros H; try discriminate; try reflexivity; lra.
Qed.

Lemma clockwiseArc_Normalized : Normalized clockwiseArc.
Proof.
  pose proof PI_gt_3 as Hpi. unfold Normalized, clockwiseArc; simpl. lra.
Defined.

(** X5 at the counter-clockwise arc from 0 to 1. *)
Lemma rotationWithinBoundary_positive_witness :
  Normalized unitArc
  /\ positiveDirection unitArc = true
  /\ forall a,
       rotationWithinBoundary a unitArc = true <->
       if Rle_dec (rb_start unitArc) (rb_end unitArc)
       then rb_start unitArc <= normalizeAngle a <= rb_end unitArc
       else rb_start unitArc <= normalizeAngle a \/ normalizeAngle a <= rb_end unitArc.
Proof.
  split; [exact unitArc_Normalized |]. split; [reflexivity |].
  intros a.
  exact (rotationWithinBoundary_positive a unitArc unitArc_Normalized eq_refl).
Defined.

(** X6 at the clockwise arc from 0 to 1. *)
Lemma rotationWithinBoundary_negative_witness :
  Normalized clockwiseArc
  /\ positiveDirection clockwiseArc = false
  /\ forall a,
       rotationWithinBoundary a clockwiseArc = true <->
       if Rlt_dec (rb_end clockwiseArc) (rb_start clockwiseArc)
       then rb_end clockwiseArc <= normalizeAngle a <= rb_start clockwiseArc
       else if Rlt_dec (rb_start clockwiseArc) (rb_end clockwiseArc)
       then normalizeAngle a <= rb_start clockwiseArc \/ rb_end clockwiseArc <= normalizeAngle a
       else normalizeAngle a = rb_start clockwiseArc.
Proof.
  split; [exact clockwiseArc_Normalized |]. split; [reflexivity |].
  intros a.
  exact (rotationWithinBoundary_negative a clockwiseArc clockwiseArc_Normalized eq_refl).
Defined.

Lemma clampRotation_inside (a : R) (b : RotationBoundary) :
  rotationWithinBoundary a b = true -> clampRotation a b = a.
Proof. intros H. unfold clampRotation. rewrite H. reflexivity. Qed.

Lemma clampRotation_lands_inside (a : R) (b : RotationBoundary) :
  Normalized b -> rotationWithinBoundary (clampRotation a b) b = true.
Proof.
  intros Hb.
  destruct (clampRotation_cases a b) as [[Hw ->] | [_ [-> | ->]]].
  - exact Hw.
  - apply rotationWithinBoundary_start; exact Hb.
  - apply rotationWithinBoundary_end; exact Hb.
Qed.


(** X7: on a boundary of normalised bounds, clamping is idempotent: a clamped
    angle is an angle that [clampRotation] returns as it is. *)
Theorem clampRotation_idempotent (a : R) (b : RotationBoundary) :
  Normalized b ->
  clampRotation (clampRotation a b) b = clampRotation a b.
Proof.
  intros Hb. apply clampRotation_inside, clampRotation_lands_inside, Hb.
Qed.

Lemma clampRotation_idempotent_witness :
  Normalized unitArc
  /\ clampRotation (clampRotation 2 unitArc) unitArc = clampRotation 2 unitArc.
Proof.
  split; [exact unitArc_Normalized |].
  exact (clampRotation_idempotent 2 unitArc unitArc_Normalized).
Defined.

(** X8: the membership test and the clamp see an angle only up to whole
    turns: an angle and the angle plus any number of turns are inside the
    same boundaries, whatever the bounds. *)
Theorem rotationWithinBoundary_periodic (a : R) (k : Z) (b : RotationBoundary) :
  rotationWithinBoundary (a + IZR k * (2 * PI)) b = rotationWithinBoundary a b.
Proof.
  unfold rotationWithinBoundary. rewrite normalizeAngle_shift. reflexivity.
Qed.

(** X9: on a camera without rotation boundary every [setRotationBy] is
    accepted, and two in a row leave the rotation that one call with the sum
    of the two deltas leaves. *)
Theorem setRotationBy_composes (d1 d2 : R) (this : Camera) :
  _rotationBoundary this = None ->
  Notified this (setRotationBy d1 this)
  /\ rotation (setRotationBy d1 this) = normalizeAngle (rotation this + d1)
  /\ rotation (setRotationBy d2 (setRotationBy d1 this))
     = rotation (setRotationBy (d1 + d2) this).
Proof.
  intros Hnone.
  assert (Hstep : forall d c, _rotationBoundary c = None ->
            setRotationBy d c
            = with_cameraObserver
                (_cameraObserver c ++
                   [Observer.rotate (_rotation c) (normalizeAngle (normalizeAngle (_rotation c + d)))
                      (Observer.mkCameraState (_position c) (_zoomLevel c)
                         (normalizeAngle (normalizeAngle (_rotation c + d))))])
                (with_rotation (normalizeAngle (normalizeAngle (_rotation c + d))) c)).
  { intros d c Hc. unfold setRotationBy. rewrite Hc.
    apply setRotation_accept. intros b Hb. congruence. }
  rewrite (Hstep d1 this Hnone).
  split; [apply app_one_neq |].
  split; [unfold rotation; simpl; apply normalizeAngle_idempotent |].
  rewrite Hstep by exact Hnone.
  rewrite (Hstep (d1 + d2) this Hnone).
  unfold rotation; simpl.
  rewrite !normalizeAngle_idempotent.
  destruct (normalizeAngle_congruent (_rotation this + d1)) as [k Hk].
  rewrite Hk.
  replace (_rotation this + d1 + IZR k * (2 * PI) + d2)
    with (_rotation this + (d1 + d2) + IZR k * (2 * PI)) by ring.
  apply normalizeAngle_shift.
Qed.

Lemma setRotationBy_composes_witness :
  _rotationBoundary defaultCamera = None
  /\ Notified defaultCamera (setRotationBy 4 defaultCamera)
  /\ rotation (setRotationBy 4 defaultCamera) = normalizeAngle (rotation defaultCamera + 4)
  /\ rotation (setRotationBy 5 (setRotationBy 4 defaultCamera))
     = rotation (setRotationBy (4 + 5) defaultCamera).
Proof.
  split; [reflexivity |].
  exact (setRotationBy_composes 4 5 defaultCamera eq_refl).
Defined.

(** ** Clamping a point and moving the camera *)

Lemma simpleClamping_axes (p : Point) (b : PositionBoundary) :
  WellFormed b ->
  simpleClamping p b
  = {| x := Rmax (Rmin (x p) (x (pb_max b))) (x (pb_min b));
       y := Rmax (Rmin (y p) (y (pb_max b))) (y (pb_min b)) |}.
Proof.
  intros [Hx Hy].
  destruct (withinPositionBoundary p b) eqn:E.
  - apply withinPositionBoundary_Inside in E.
    rewrite (simpleClamping_inside _ _ E).
    destruct E as [Ex Ey].
    apply point_eq; simpl.
    + rewrite Rmin_left by lra. rewrite Rmax_left by lra. reflexivity.
    + rewrite Rmin_left by lra. rewrite Rmax_left by lra. reflexivity.
  - apply withinPositionBoundary_outside in E.
    apply simpleClamping_outside. exact E.
Qed.

(** The clamp of a coordinate to an interval is in the interval and at least
    as near to the coordinate as any point of the interval. *)
Lemma clamp_nearest (v lo hi q : R) :
  lo <= hi ->
  lo <= Rmax (Rmin v hi) lo <= hi
  /\ (lo <= q <= hi -> Rabs (Rmax (Rmin v hi) lo - v) <= Rabs (q - v)).
Proof.
  intros H. unfold Rmax, Rmin, Rabs.
  destruct (Rle_dec v hi); destruct (Rle_dec _ lo);
    split; try lra; intros Hq;
    destruct (Rcase_abs _); destruct (Rcase_abs _); lra.
Qed.

(** X10: on a boundary whose min is at most its max on each axis,
    [simpleClamping] returns a point of the boundary, and on each axis no
    point of the boundary is nearer to the destination. *)
Theorem simpleClamping_nearest (p : Point) (b : PositionBoundary) :
  WellFormed b ->
  Inside (simpleClamping p b) b
  /\ (forall q, Inside q b ->
        Rabs (x (simpleClamping p b) - x p) <= Rabs (x q - x p)
        /\ Rabs (y (simpleClamping p b) - y p) <= Rabs (y q - y p)).
Proof.
  intros Hb. rewrite (simpleClamping_axes p b Hb). destruct Hb as [Hx Hy].
  unfold Inside; simpl.
  split.
  - split.
    + apply (clamp_nearest (x p) _ _ 0 Hx).
    + apply (clamp_nearest (y p) _ _ 0 Hy).
  - intros q [Hqx Hqy]. split.
    + apply (clamp_nearest (x p) _ _ (x q) Hx), Hqx.
    + apply (clamp_nearest (y p) _ _ (y q) Hy), Hqy.
Qed.

Lemma defaultBoundary_WellFormed : WellFormed defaultBoundary.
Proof. unfold WellFormed; simpl; lra. Defined.

Lemma simpleClamping_nearest_witness :
  WellFormed defaultBoundary
  /\ Inside (simpleClamping {| x := 1500; y := 20 |} defaultBoundary) defaultBoundary
  /\ (forall q, Inside q defaultBoundary ->
        Rabs (x (simpleClamping {| x := 1500; y := 20 |} defaultBoundary) - 1500)
        <= Rabs (x q - 1500)
        /\ Rabs (y (simpleClamping {| x := 1500; y := 20 |} defaultBoundary) - 20)
           <= Rabs (y q - 20)).
Proof.
  split; [exact defaultBoundary_WellFormed |].
  exact (simpleClamping_nearest {| x := 1500; y := 20 |} defaultBoundary
           defaultBoundary_WellFormed).
Defined.

(** X11: on such a boundary the points that [simpleClamping] returns as they
    are are exactly the points of the boundary, and clamping twice is
    clamping once. *)
Theorem simpleClamping_fixed_points (p : Point) (b : PositionBoundary) :
  WellFormed b ->
  (simpleClamping p b = p <-> Inside p b)
  /\ simpleClamping (simpleClamping p b) b = simpleClamping p b.
Proof.
  intros Hb.
  assert (Hin : forall p', Inside (simpleClamping p' b) b).
  { intros p'. rewrite (simpleClamping_axes p' b Hb). destruct Hb as [Hx Hy].
    unfold Inside; simpl. split.
    - apply (clamp_nearest (x p') _ _ 0 Hx).
    - apply (clamp_nearest (y p') _ _ 0 Hy). }
  split.
  - split.
    + intros E. rewrite <- E. apply Hin.
    + apply simpleClamping_inside.
  - apply simpleClamping_inside, Hin.
Qed.

Lemma simpleClamping_fixed_points_witness :
  WellFormed defaultBoundary
  /\ (simpleClamping {| x := 1500; y := 20 |} defaultBoundary = {| x := 1500; y := 20 |}
      <-> Inside {| x := 1500; y := 20 |} defaultBoundary)
  /\ simpleClamping (simpleClamping {| x := 1500; y := 20 |} defaultBoundary) defaultBoundary
     = simpleClamping {| x := 1500; y := 20 |} defaultBoundary.
Proof.
  split; [exact defaultBoundary_WellFormed |].
  exact (simpleClamping_fixed_points {| x := 1500; y := 20 |} defaultBoundary
           defaultBoundary_WellFormed).
Defined.

(** X12: when only the position is limited and the boundary has its min at
    most its max on each axis, [setPositionBy] is never rejected: the
    observer is notified and the camera is at the clamp of its position plus
    the offset, inside the boundary. *)
Theorem setPositionBy_always_moves (offset : Point) (this : Camera) :
  WellFormed (positionBoundary this) ->
  limitEntireViewPort this = false ->
  Notified this (setPositionBy offset this)
  /\ position (setPositionBy offset this)
     = simpleClamping (vectorAddition (position this) offset) (positionBoundary this)
  /\ Inside (position (setPositionBy offset this)) (positionBoundary this).
Proof.
  intros Hb Hl. unfold positionBoundary, position in *.
  assert (Hin : Inside (simpleClamping (vectorAddition (_position this) offset)
                          (_positionBoundary this)) (_positionBoundary this)).
  { rewrite (simpleClamping_axes _ _ Hb). destruct Hb as [Hx Hy].
    unfold Inside; simpl. split.
    - apply (clamp_nearest _ _ _ 0 Hx).
    - apply (clamp_nearest _ _ _ 0 Hy). }
  unfold setPositionBy. rewrite Hl.
  rewrite setPosition_accept.
  - split; [apply app_one_neq |]. split; [reflexivity | exact Hin].
  - rewrite Hl. discriminate.
  - apply withinPositionBoundary_Inside. exact Hin.
Qed.

Lemma setPositionBy_always_moves_witness :
  WellFormed (positionBoundary smallCamera)
  /\ limitEntireViewPort smallCamera = false
  /\ Notified smallCamera (setPositionBy {| x := 25; y := 0 |} smallCamera)
  /\ position (setPositionBy {| x := 25; y := 0 |} smallCamera)
     = simpleClamping (vectorAddition (position smallCamera) {| x := 25; y := 0 |})
         (positionBoundary smallCamera)
  /\ Inside (position (setPositionBy {| x := 25; y := 0 |} smallCamera))
       (positionBoundary smallCamera).
Proof.
  assert (H : WellFormed (positionBoundary smallCamera))
    by (unfold WellFormed; simpl; lra).
  split; [exact H |]. split; [reflexivity |].
  exact (setPositionBy_always_moves {| x := 25; y := 0 |} smallCamera H eq_refl).
Defined.




(** X14: the setter of the zoom boundary stores the two bounds in order: the
    stored min is the smaller and the stored max the larger of the two given,
    so the stored boundary is never inverted; the state of the camera and the
    observer are untouched. *)
Theorem set_zoomLevelBoundary_orders (zb : ZoomLevelBoundary) (this : Camera) :
  zb_min (zoomLevelBoundary (set_zoomLevelBoundary zb this)) = Rmin (zb_min zb) (zb_max zb)
  /\ zb_max (zoomLevelBoundary (set_zoomLevelBoundary zb this)) = Rmax (zb_min zb) (zb_max zb)
  /\ zb_min (zoomLevelBoundary (set_zoomLevelBoundary zb this))
     <= zb_max (zoomLevelBoundary (set_zoomLevelBoundary zb this))
  /\ snapshot (set_zoomLevelBoundary zb this) = snapshot this
  /\ _cameraObserver (set_zoomLevelBoundary zb this) = _cameraObserver this.
Proof.
  unfold set_zoomLevelBoundary, zoomLevelBoundary.
  destruct (NumFacts.gtb_spec (zb_min zb) (zb_max zb)) as [H | H]; simpl.
  - rewrite Rmin_right, Rmax_left by lra. repeat split; try reflexivity. lra.
  - rewrite Rmin_left, Rmax_right by lra. repeat split; try reflexivity. lra.
Qed.

(** ** Sequences of calls *)

Lemma setZoomLevel_cases (targetZoom : R) (this : Camera) :
  (setZoomLevel targetZoom this = this
   /\ withinZoomLevelBoundary targetZoom (_zoomLevelBoundary this) = false)
  \/ (setZoomLevel targetZoom this =
      with_cameraObserver
        (_cameraObserver this ++
           [Observer.zoom (_zoomLevel this) targetZoom
              (Observer.mkCameraState (_position this) targetZoom (_rotation this))])
        (with_zoomLevel targetZoom this)
      /\ withinZoomLevelBoundary targetZoom (_zoomLevelBoundary this) = true).
Proof.
  unfold setZoomLevel.
  destruct (withinZoomLevelBoundary targetZoom (_zoomLevelBoundary this)); simpl; auto.
Qed.

Lemma setRotation_cases (angle : R) (this : Camera) :
  (setRotation angle this = this
   /\ exists b, _rotationBoundary this = Some b /\ rotationWithinBoundary angle b = false)
  \/ (setRotation angle this =
      with_cameraObserver
        (_cameraObserver this ++
           [Observer.rotate (_rotation this) (normalizeAngle angle)
              (Observer.mkCameraState (_position this) (_zoomLevel this)
                 (normalizeAngle angle))])
        (with_rotation (normalizeAngle angle) this)
      /\ forall b, _rotationBoundary this = Some b -> rotationWithinBoundary angle b = true).
Proof.
  unfold setRotation.
  destruct (_rotationBoundary this) as [b |] eqn:Hb.
  - destruct (rotationWithinBoundary angle b) eqn:Hw; simpl.
    + right. split; [reflexivity |]. intros b' E. injection E as <-. exact Hw.
    + left. split; [reflexivity |]. exists b. auto.
  - right. split; [reflexivity |]. intros b E. discriminate E.
Qed.

Lemma setPositionBy_as_setPosition (offset : Point) (this : Camera) :
  exists destination, setPositionBy offset this = setPosition destination this.
Proof.
  unfold setPositionBy. destruct (limitEntireViewPort this); eexists; reflexivity.
Qed.

Lemma setRotationBy_as_setRotation (deltaRotation : R) (this : Camera) :
  exists angle, setRotationBy deltaRotation this = setRotation angle this.
Proof. unfold setRotationBy. eexists; reflexivity. Qed.

(** Every call is one of the three plain setters at some argument. *)
Lemma invoke_plain (m : Method) (this : Camera) :
  (exists destination, invoke this m = setPosition destination this)
  \/ (exists targetZoom, invoke this m = setZoomLevel targetZoom this)
  \/ (exists angle, invoke this m = setRotation angle this).
Proof.
  destruct m as [d | o | z | dz | r | dr]; simpl.
  - left. exists d. reflexivity.
  - left. apply setPositionBy_as_setPosition.
  - right; left. exists z. reflexivity.
  - right; left. eexists. reflexivity.
  - right; right. exists r. reflexivity.
  - right; right. apply setRotationBy_as_setRotation.
Qed.






(** X16: a call of a mutator either returns the camera it was given, with no
    notification, or appends exactly one notification, which reports the
    change: the attribute it names went from its old to its new value, the
    two other attributes did not change, and the snapshot is the state after
    the call. *)
Theorem call_reports_its_change (m : Method) (this : Camera) :
  invoke this m = this
  \/ exists e,
       _cameraObserver (invoke this m) = _cameraObserver this ++ [e]
       /\ Reports e this (invoke this m).
Proof.
  destruct (invoke_plain m this) as [[d ->] | [[z ->] | [r ->]]].
  - destruct (setPosition_cases d this) as [[-> _] | [-> _]]; [left; reflexivity |].
    right. eexists. split; [reflexivity |]. simpl. auto 6.
  - destruct (setZoomLevel_cases z this) as [[-> _] | [-> _]]; [left; reflexivity |].
    right. eexists. split; [reflexivity |]. simpl. auto 6.
  - destruct (setRotation_cases r this) as [[-> _] | [-> _]]; [left; reflexivity |].
    right. eexists. split; [reflexivity |]. simpl. auto 6.
Qed.

(** ** The transforms *)

(** X17: the vector transform is the difference of the point transform: the
    world-space images of two viewport points differ by the image of their
    difference under [transformVector2WorldSpace], whatever the camera
    position. *)
Theorem transformVector2WorldSpace_difference (p q : Point) (this : Camera) :
  vectorSubtraction (transformViewPort2WorldSpace p this)
    (transformViewPort2WorldSpace q this)
  = transformVector2WorldSpace (vectorSubtraction p q) this.
Proof.
  unfold transformVector2WorldSpace, transformViewPort2WorldSpace,
    transformViewPort2WorldSpaceWithCameraAttributes,
    vectorSubtraction, vectorAddition, multiplyByScalar, rotateVector.
  apply point_eq; simpl; ring.
Qed.

(** X18: for a camera of zoom level other than 0, taking a world point to the
    viewport and back to world space gives the point again. *)
Theorem world_viewPort_roundtrip (p : Point) (this : Camera) :
  zoomLevel this <> 0 ->
  transformViewPort2WorldSpace (transformWorldSpace2ViewPort p this) this = p.
Proof.
  unfold zoomLevel. intros Hz.
  unfold transformWorldSpace2ViewPort, transformViewPort2WorldSpace,
    transformViewPort2WorldSpaceWithCameraAttributes,
    vectorSubtraction, vectorAddition, multiplyByScalar, rotateVector.
  destruct p as [px py]; simpl.
  rewrite cos_neg, sin_neg.
  pose proof (sin2_cos2 (_rotation this)) as Hsc. unfold Rsqr in Hsc.
  set (c := cos (_rotation this)) in *. set (s := sin (_rotation this)) in *.
  set (z := _zoomLevel this) in *.
  set (cx := x (_position this)). set (cy := y (_position this)).
  f_equal.
  - transitivity ((px - cx) * (s * s + c * c) + cx); [field; exact Hz | rewrite Hsc; ring].
  - transitivity ((py - cy) * (s * s + c * c) + cy); [field; exact Hz | rewrite Hsc; ring].
Qed.

Lemma world_viewPort_roundtrip_witness :
  zoomLevel defaultCamera <> 0
  /\ transformViewPort2WorldSpace
       (transformWorldSpace2ViewPort {| x := 3; y := 4 |} defaultCamera) defaultCamera
     = {| x := 3; y := 4 |}.
Proof.
  assert (H : zoomLevel defaultCamera <> 0) by (simpl; lra).
  split; [exact H | exact (world_viewPort_roundtrip {| x := 3; y := 4 |} defaultCamera H)].
Defined.

(** ** The minimum zoom level under rotation *)

Section MinZoomLoop.

Variables (w h bw bh increment : R).

Let step := MinZoom.body w h bw bh increment.

(** The two maxima never decrease in the loop. *)
Lemma MinZoom_increasing (l : list nat) (st : MinZoom.Loop) :
  MinZoom.maxMinWidthZoomLevel st
  <= MinZoom.maxMinWidthZoomLevel (fold_left step l st)
  /\ MinZoom.maxMinHeightZoomLevel st
     <= MinZoom.maxMinHeightZoomLevel (fold_left step l st).
Proof.
  revert st. induction l as [| i l IH]; intros st; simpl; [lra |].
  destruct (IH (step st i)) as [H1 H2].
  assert (Hw : MinZoom.maxMinWidthZoomLevel st
               <= MinZoom.maxMinWidthZoomLevel (step st i))
    by (unfold step; simpl; apply Rmax_l).
  assert (Hh : MinZoom.maxMinHeightZoomLevel st
               <= MinZoom.maxMinHeightZoomLevel (step st i))
    by (unfold step; simpl; apply Rmax_l).
  lra.
Qed.

(** A bound on every sample is a bound on the maxima. *)
Lemma MinZoom_bounded (uw uh : R) (l : list nat) (st : MinZoom.Loop) :
  (forall a, (h * sin a + w * cos a) / bw <= uw) ->
  (forall a, (h * cos a + w * sin a) / bh <= uh) ->
  MinZoom.maxMinWidthZoomLevel st <= uw ->
  MinZoom.maxMinHeightZoomLevel st <= uh ->
  MinZoom.maxMinWidthZoomLevel (fold_left step l st) <= uw
  /\ MinZoom.maxMinHeightZoomLevel (fold_left step l st) <= uh.
Proof.
  intros Hw Hh. revert st. induction l as [| i l IH]; intros st H1 H2; simpl; [lra |].
  apply IH; unfold step; simpl; apply Rmax_lub; auto.
Qed.

(** The angle of the sample advances by [increment] each turn. *)
Lemma MinZoom_rotation (l : list nat) (st : MinZoom.Loop) :
  MinZoom.rotation (fold_left step l st)
  = MinZoom.rotation st + INR (List.length l) * increment.
Proof.
  revert st. induction l as [| i l IH]; intros st.
  - simpl. ring.
  - cbn [fold_left List.length]. rewrite IH, S_INR. unfold step; simpl. ring.
Qed.

(** The last sample is under the maxima. *)
Lemma MinZoom_last (l : list nat) (i : nat) (st : MinZoom.Loop) :
  let a := MinZoom.rotation st + INR (List.length l) * increment in
  (h * sin a + w * cos a) / bw
  <= MinZoom.maxMinWidthZoomLevel (fold_left step (l ++ [i]) st)
  /\ (h * cos a + w * sin a) / bh
     <= MinZoom.maxMinHeightZoomLevel (fold_left step (l ++ [i]) st).
Proof.
  intros a. rewrite fold_left_app. cbn [fold_left].
  unfold step at 1 3. simpl. rewrite MinZoom_rotation. fold a.
  split; apply Rmax_r.
Qed.

End MinZoomLoop.

(** The width of the rotated viewport is at most its diagonal. *)
Lemma rotated_extent_le_diagonal (w h s c : R) :
  s * s + c * c = 1 -> h * s + w * c <= sqrt (w * w + h * h).
Proof.
  intros Hsc.
  destruct (Rle_dec (h * s + w * c) 0) as [Hv | Hv].
  - pose proof (sqrt_pos (w * w + h * h)). lra.
  - rewrite <- (sqrt_square (h * s + w * c)) by lra.
    apply sqrt_le_1_alt.
    assert (H : w * w + h * h - (h * s + w * c) * (h * s + w * c)
                = (h * c - w * s) * (h * c - w * s)).
    { transitivity ((w * w + h * h) * (s * s + c * c)
                    - (h * s + w * c) * (h * s + w * c));
        [rewrite Hsc; ring | ring]. }
    pose proof (Rle_0_sqr (h * c - w * s)) as Hsq. unfold Rsqr in Hsq. lra.
Qed.

Lemma sample_le_diagonal (w h a : R) :
  h * sin a + w * cos a <= sqrt (w * w + h * h)
  /\ h * cos a + w * sin a <= sqrt (w * w + h * h).
Proof.
  pose proof (sin2_cos2 a) as Hsc. unfold Rsqr in Hsc.
  split.
  - apply rotated_extent_le_diagonal. exact Hsc.
  - apply rotated_extent_le_diagonal. lra.
Qed.

Lemma quotient_le (a b d : R) : 0 < d -> a <= b -> a / d <= b / d.
Proof.
  intros Hd H. unfold Rdiv. apply Rmult_le_compat_r; [| exact H].
  left. apply Rinv_0_lt_compat. exact Hd.
Qed.

(** X19: for a boundary of positive width and height,
    [getMinZoomLevelWithCameraRotation] is at least [getMinZoomLevel], at
    least what the viewport turned by a quarter needs (height over boundary
    width, width over boundary height: the last of its samples), and at most
    what the diagonal of the viewport needs on the narrower side of the
    boundary. *)
Theorem getMinZoomLevelWithCameraRotation_bounds (w h : R) (b : PositionBoundary) :
  x (pb_min b) < x (pb_max b) ->
  y (pb_min b) < y (pb_max b) ->
  let bw := x (pb_max b) - x (pb_min b) in
  let bh := y (pb_max b) - y (pb_min b) in
  getMinZoomLevel w h b <= getMinZoomLevelWithCameraRotation w h b
  /\ Rmax (h / bw) (w / bh) <= getMinZoomLevelWithCameraRotation w h b
  /\ getMinZoomLevelWithCameraRotation w h b
     <= Rmax (sqrt (w * w + h * h) / bw) (sqrt (w * w + h * h) / bh).
Proof.
  intros Hx Hy bw bh.
  assert (Hbw : 0 < bw) by (unfold bw; lra).
  assert (Hbh : 0 < bh) by (unfold bh; lra).
  unfold getMinZoomLevelWithCameraRotation, getMinZoomLevel. fold bw bh.
  set (inc := PI / (2 * INR 10)).
  set (st0 := {| MinZoom.rotation := 0;
                 MinZoom.maxMinWidthZoomLevel := w / bw;
                 MinZoom.maxMinHeightZoomLevel := h / bh |}).
  set (st := fold_left (MinZoom.body w h bw bh inc) (seq 0 (10 + 1)) st0).
  set (D := sqrt (w * w + h * h)).
  destruct (MinZoom_increasing w h bw bh inc (seq 0 (10 + 1)) st0) as [Hiw Hih].
  change (w / bw <= MinZoom.maxMinWidthZoomLevel st) in Hiw.
  change (h / bh <= MinZoom.maxMinHeightZoomLevel st) in Hih.
  assert (Hup : MinZoom.maxMinWidthZoomLevel st <= D / bw
                /\ MinZoom.maxMinHeightZoomLevel st <= D / bh).
  { apply MinZoom_bounded.
    - intros a. apply quotient_le; [exact Hbw | apply sample_le_diagonal].
    - intros a. apply quotient_le; [exact Hbh | apply sample_le_diagonal].
    - simpl. apply quotient_le; [exact Hbw |].
      pose proof (proj1 (sample_le_diagonal w h 0)) as H0.
      rewrite sin_0, cos_0 in H0. fold D in H0. lra.
    - simpl. apply quotient_le; [exact Hbh |].
      pose proof (proj2 (sample_le_diagonal w h 0)) as H0.
      rewrite sin_0, cos_0 in H0. fold D in H0. lra. }
  assert (Hlast : h / bw <= MinZoom.maxMinWidthZoomLevel st
                  /\ w / bh <= MinZoom.maxMinHeightZoomLevel st).
  { pose proof (MinZoom_last w h bw bh inc (seq 0 10) 10%nat st0) as H.
    change (seq 0 10 ++ [10%nat]) with (seq 0 (10 + 1)) in H. fold st in H.
    rewrite length_seq in H. simpl MinZoom.rotation in H.
    replace (0 + INR 10 * inc) with (PI / 2) in H
      by (unfold inc; simpl INR; field).
    cbv zeta in H. rewrite sin_PI2, cos_PI2 in H.
    destruct H as [H1 H2]. split.
    - replace (h / bw) with ((h * 1 + w * 0) / bw) by (field; lra). exact H1.
    - replace (w / bh) with ((h * 0 + w * 1) / bh) by (field; lra). exact H2. }
  destruct Hup as [Huw Huh]. destruct Hlast as [Hlw Hlh].
  pose proof (Rmax_l (D / bw) (D / bh)). pose proof (Rmax_r (D / bw) (D / bh)).
  split; [| split].
  - destruct (NumFacts.gtb_spec (w / bw) (h / bh));
      destruct (NumFacts.gtb_spec (MinZoom.maxMinWidthZoomLevel st)
                  (MinZoom.maxMinHeightZoomLevel st)); lra.
  - apply Rmax_lub;
      destruct (NumFacts.gtb_spec (MinZoom.maxMinWidthZoomLevel st)
                  (MinZoom.maxMinHeightZoomLevel st)); lra.
  - destruct (NumFacts.gtb_spec (MinZoom.maxMinWidthZoomLevel st)
                (MinZoom.maxMinHeightZoomLevel st)); lra.
Qed.

Lemma getMinZoomLevelWithCameraRotation_bounds_witness :
  x (pb_min defaultBoundary) < x (pb_max defaultBoundary)
  /\ y (pb_min defaultBoundary) < y (pb_max defaultBoundary)
  /\ getMinZoomLevel 500 300 defaultBoundary
     <= getMinZoomLevelWithCameraRotation 500 300 defaultBoundary
  /\ Rmax (300 / (x (pb_max defaultBoundary) - x (pb_min defaultBoundary)))
       (500 / (y (pb_max defaultBoundary) - y (pb_min defaultBoundary)))
     <= getMinZoomLevelWithCameraRotation 500 300 defaultBoundary
  /\ getMinZoomLevelWithCameraRotation 500 300 defaultBoundary
     <= Rmax (sqrt (500 * 500 + 300 * 300)
              / (x (pb_max defaultBoundary) - x (pb_min defaultBoundary)))
          (sqrt (500 * 500 + 300 * 300)
           / (y (pb_max defaultBoundary) - y (pb_min defaultBoundary))).
Proof.
  assert (H1 : x (pb_min defaultBoundary) < x (pb_max defaultBoundary)) by (simpl; lra).
  assert (H2 : y (pb_min defaultBoundary) < y (pb_max defaultBoundary)) by (simpl; lra).
  split; [exact H1 |]. split; [exact H2 |].
  exact (getMinZoomLevelWithCameraRotation_bounds 500 300 defaultBoundary H1 H2).
Defined.

(** ** Degrees, radians and restricted translations *)

(** X20: [deg2rad] and [rad2deg] are inverse to each other, and 180 degrees
    are π radians. *)
Theorem deg2rad_rad2deg (a : R) :
  rad2deg (deg2rad a) = a /\ deg2rad (rad2deg a) = a /\ deg2rad 180 = PI.
Proof.
  pose proof PI_RGT_0 as Hpi.
  unfold rad2deg, deg2rad. repeat split; field; lra.
Qed.

(** X21: the two relative restrictions split a translation into its parts
    along the vertical and the horizontal direction of the rotated camera:
    their sum is the translation, the first has no component along the
    horizontal direction and the second none along the vertical one. *)
Theorem restrictRelative_decomposition (delta : Point) (cameraRotation : R) :
  vectorAddition (restrictRelativeXTranslation delta cameraRotation)
    (restrictRelativeYTranslation delta cameraRotation) = delta
  /\ dotProduct (restrictRelativeXTranslation delta cameraRotation)
       (rotateVector {| x := 1; y := 0 |} cameraRotation) = 0
  /\ dotProduct (restrictRelativeYTranslation delta cameraRotation)
       (rotateVector {| x := 0; y := 1 |} cameraRotation) = 0.
Proof.
  pose proof (sin2_cos2 cameraRotation) as Hsc. unfold Rsqr in Hsc.
  unfold restrictRelativeXTranslation, restrictRelativeYTranslation,
    vectorAddition, multiplyByScalar, dotProduct, rotateVector; simpl.
  set (c := cos cameraRotation) in *. set (s := sin cameraRotation) in *.
  split; [| split; ring].
  destruct delta as [dx dy]; simpl. f_equal.
  - transitivity (dx * (s * s + c * c)); [ring | rewrite Hsc; ring].
  - transitivity (dy * (s * s + c * c)); [ring | rewrite Hsc; ring].
Qed.

(** X22: a relative restriction is a projection, applying it twice is
    applying it once; and for a camera that is not rotated the relative
    restrictions are the plain ones. *)
Theorem restrictRelative_projection (delta : Point) (cameraRotation : R) :
  restrictRelativeXTranslation (restrictRelativeXTranslation delta cameraRotation)
    cameraRotation
  = restrictRelativeXTranslation delta cameraRotation
  /\ restrictRelativeYTranslation (restrictRelativeYTranslation delta cameraRotation)
       cameraRotation
     = restrictRelativeYTranslation delta cameraRotation
  /\ restrictRelativeXTranslation delta 0 = restrictXTranslation delta
  /\ restrictRelativeYTranslation delta 0 = restrictYTranslation delta.
Proof.
  pose proof (sin2_cos2 cameraRotation) as Hsc. unfold Rsqr in Hsc.
  unfold restrictRelativeXTranslation, restrictRelativeYTranslation,
    restrictXTranslation, restrictYTranslation,
    multiplyByScalar, dotProduct, rotateVector; simpl.
  rewrite cos_0, sin_0.
  set (c := cos cameraRotation) in *. set (s := sin cameraRotation) in *.
  destruct delta as [dx dy]; simpl.
  repeat split; f_equal; try ring.
  - transitivity (- s * ((dx * - s + dy * c) * (s * s + c * c))); [ring | rewrite Hsc; ring].
  - transitivity (c * ((dx * - s + dy * c) * (s * s + c * c))); [ring | rewrite Hsc; ring].
  - transitivity (c * ((dx * c + dy * s) * (s * s + c * c))); [ring | rewrite Hsc; ring].
  - transitivity (s * ((dx * c + dy * s) * (s * s + c * c))); [ring | rewrite Hsc; ring].
Qed.

(** ** The line-intersection clamp: where it lands and when it throws *)

Lemma OnSegment_Inside (p a e : Point) (b : PositionBoundary) :
  OnSegment p a e -> Inside a b -> Inside e b -> Inside p b.
Proof.
  intros H [Ha1 Ha2] [He1 He2].
  apply OnSegment_inv in H. destruct H as [t [Ht [Hx Hy]]].
  unfold Inside. rewrite Hx, Hy. split; split; nra.
Qed.

Lemma corners_Inside (b : PositionBoundary) :
  WellFormed b ->
  Inside (topRight b) b /\ Inside (topLeft b) b
  /\ Inside (bottomRight b) b /\ Inside (bottomLeft b) b.
Proof.
  intros [Hx Hy]. unfold Inside; simpl. lra.
Qed.

Section ClampingV2Extras.

Context (f : Point -> Point -> Point -> Point -> IntersectionResult)
        `{Hf : !SegmentIntersection f}.

(** Segments without common point are reported as not intersecting. *)
Lemma miss_reported (a e c d : Point) :
  (forall p, OnSegment p a e -> ~ OnSegment p c d) ->
  intersects (f a e c d) = false.
Proof.
  intros Hmiss.
  destruct (intersects (f a e c d)) eqn:Hi; [exfalso | reflexivity].
  pose proof (intersection_tagged _ _ _ _ Hi) as Ht.
  destruct (intersections (f a e c d)) as [[q | q0 q] |] eqn:E; [| | congruence].
  - destruct (intersection_point _ _ _ _ _ E) as [H1 H2]. exact (Hmiss q H1 H2).
  - destruct (intersection_interval _ _ _ _ _ _ E) as [H1 H2]. exact (Hmiss q H1 H2).
Qed.

Lemma clampingV2_lands_inside (origin destination : Point) (b : PositionBoundary) :
  WellFormed b -> Inside origin b ->
  exists p, clampingV2 f origin destination b = inr p /\ Inside p b.
Proof.
  intros Hb Ho. pose proof Hb as [Hx Hy].
  destruct (corners_Inside b Hb) as [Ctr [Ctl [Cbr Cbl]]].
  destruct (withinPositionBoundary destination b) eqn:Hw.
  - exists destination. unfold clampingV2. rewrite Hw.
    split; [reflexivity | apply withinPositionBoundary_Inside; exact Hw].
  - pose proof (proj1 (withinPositionBoundary_outside _ _) Hw) as Hd.
    unfold Inside in Hd.
    destruct (Rlt_dec (y (pb_max b)) (y destination)) as [Htop | Htop];
      destruct (Rlt_dec (x (pb_max b)) (x destination)) as [Hright | Hright];
      destruct (Rlt_dec (y destination) (y (pb_min b))) as [Hbot | Hbot];
      destruct (Rlt_dec (x destination) (x (pb_min b))) as [Hleft | Hleft];
      try lra.
    + exists (topRight b). split; [| exact Ctr]. classify_edges Hw. reflexivity.
    + exists (topLeft b). split; [| exact Ctl]. classify_edges Hw. reflexivity.
    + assert (He : EdgeResult f origin destination (topLeft b) (topRight b)
                     (clampingV2 f origin destination b)).
      { classify_edges Hw. apply (use_intersection f).
        apply crossing_top; [exact Ho | lra | lra]. }
      destruct He as [p [Hp [_ [_ Hon]]]]. exists p. split; [exact Hp |].
      exact (OnSegment_Inside _ _ _ _ Hon Ctl Ctr).
    + exists (bottomRight b). split; [| exact Cbr]. classify_edges Hw. reflexivity.
    + assert (He : EdgeResult f origin destination (bottomRight b) (topRight b)
                     (clampingV2 f origin destination b)).
      { classify_edges Hw. apply (use_intersection f).
        apply crossing_right; [exact Ho | lra | lra]. }
      destruct He as [p [Hp [_ [_ Hon]]]]. exists p. split; [exact Hp |].
      exact (OnSegment_Inside _ _ _ _ Hon Cbr Ctr).
    + exists (bottomLeft b). split; [| exact Cbl]. classify_edges Hw. reflexivity.
    + assert (He : EdgeResult f origin destination (bottomLeft b) (bottomRight b)
                     (clampingV2 f origin destination b)).
      { classify_edges Hw. apply (use_intersection f).
        apply crossing_bottom; [exact Ho | lra | lra]. }
      destruct He as [p [Hp [_ [_ Hon]]]]. exists p. split; [exact Hp |].
      exact (OnSegment_Inside _ _ _ _ Hon Cbl Cbr).
    + assert (He : EdgeResult f origin destination (bottomLeft b) (topLeft b)
                     (clampingV2 f origin destination b)).
      { classify_edges Hw. apply (use_intersection f).
        apply crossing_left; [exact Ho | lra | lra]. }
      destruct He as [p [Hp [_ [_ Hon]]]]. exists p. split; [exact Hp |].
      exact (OnSegment_Inside _ _ _ _ Hon Cbl Ctl).
Qed.

End ClampingV2Extras.

(** X23: with a segment intersection that finds every common point and
    reports only common points, a boundary of min at most max on each axis
    and an origin inside it, [clampingV2] returns, for every destination, a
    point of the boundary; and applied to its own result, from the same
    origin, it returns that result. *)
Theorem clampingV2_result_inside
    (f : Point -> Point -> Point -> Point -> IntersectionResult)
    (Hf : SegmentIntersection f)
    (origin destination : Point) (b : PositionBoundary) :
  WellFormed b ->
  Inside origin b ->
  exists p,
    clampingV2 f origin destination b = inr p
    /\ Inside p b
    /\ clampingV2 f origin p b = inr p.
Proof.
  intros Hb Ho.
  destruct (clampingV2_lands_inside f origin destination b Hb Ho) as [p [Hp Hin]].
  exists p. split; [exact Hp |]. split; [exact Hin |].
  unfold clampingV2.
  rewrite (proj2 (withinPositionBoundary_Inside p b) Hin). reflexivity.
Qed.

Lemma smallBoundary_WellFormed : WellFormed smallBoundary.
Proof. unfold WellFormed; simpl; lra. Defined.

Lemma origin_in_smallBoundary : Inside {| x := 0; y := 0 |} smallBoundary.
Proof. unfold Inside; simpl; lra. Defined.

Lemma clampingV2_result_inside_witness :
  SegmentIntersection getLineSegmentIntersection
  /\ WellFormed smallBoundary
  /\ Inside {| x := 0; y := 0 |} smallBoundary
  /\ exists p,
       clampingV2 getLineSegmentIntersection {| x := 0; y := 0 |} {| x := 30; y := 5 |}
         smallBoundary = inr p
       /\ Inside p smallBoundary
       /\ clampingV2 getLineSegmentIntersection {| x := 0; y := 0 |} p smallBoundary = inr p.
Proof.
  split; [exact getLineSegmentIntersection_contract |].
  split; [exact smallBoundary_WellFormed |].
  split; [exact origin_in_smallBoundary |].
  exact (clampingV2_result_inside getLineSegmentIntersection
           getLineSegmentIntersection_contract {| x := 0; y := 0 |} {| x := 30; y := 5 |}
           smallBoundary smallBoundary_WellFormed origin_in_smallBoundary).
Defined.

(** X24: with such a segment intersection and a boundary of min at most max
    on each axis, when the destination is beyond one edge only and the segment from the origin to the destination has no
    point on that edge, which an origin outside the boundary allows,
    [clampingV2] throws its error about the missing intersection. *)
Theorem clampingV2_throws_without_crossing
    (f : Point -> Point -> Point -> Point -> IntersectionResult)
    (Hf : SegmentIntersection f)
    (origin destination : Point) (b : PositionBoundary) :
  WellFormed b ->
  let thrown :=
    inl (Error "should have intersection but cannot calculate one"%string) in
  (y destination > y (pb_max b) /\ x (pb_min b) <= x destination <= x (pb_max b) ->
   (forall p, OnSegment p origin destination -> ~ OnSegment p (topLeft b) (topRight b)) ->
   clampingV2 f origin destination b = thrown)
  /\ (y destination < y (pb_min b) /\ x (pb_min b) <= x destination <= x (pb_max b) ->
      (forall p, OnSegment p origin destination ->
                 ~ OnSegment p (bottomLeft b) (bottomRight b)) ->
      clampingV2 f origin destination b = thrown)
  /\ (x destination < x (pb_min b) /\ y (pb_min b) <= y destination <= y (pb_max b) ->
      (forall p, OnSegment p origin destination -> ~ OnSegment p (bottomLeft b) (topLeft b)) ->
      clampingV2 f origin destination b = thrown)
  /\ (x destination > x (pb_max b) /\ y (pb_min b) <= y destination <= y (pb_max b) ->
      (forall p, OnSegment p origin destination ->
                 ~ OnSegment p (bottomRight b) (topRight b)) ->
      clampingV2 f origin destination b = thrown).
Proof.
  intros [Hx Hy] thrown. unfold thrown.
  repeat split; intros [H1 H2] Hmiss;
    (assert (Hw : withinPositionBoundary destination b = false)
       by (apply withinPositionBoundary_outside; unfold Inside; lra));
    pose proof (miss_reported f _ _ _ _ Hmiss) as Hi;
    unfold topLeft, topRight, bottomLeft, bottomRight in Hi;
    classify_edges Hw; rewrite Hi; reflexivity.
Qed.

Lemma clampingV2_throws_without_crossing_witness :
  SegmentIntersection getLineSegmentIntersection
  /\ WellFormed smallBoundary
  /\ (y {| x := 0; y := 20 |} > y (pb_max smallBoundary)
      /\ x (pb_min smallBoundary) <= x {| x := 0; y := 20 |} <= x (pb_max smallBoundary))
  /\ (forall p, OnSegment p {| x := 20; y := 30 |} {| x := 0; y := 20 |} ->
                ~ OnSegment p (topLeft smallBoundary) (topRight smallBoundary))
  /\ clampingV2 getLineSegmentIntersection {| x := 20; y := 30 |} {| x := 0; y := 20 |}
       smallBoundary
     = inl (Error "should have intersection but cannot calculate one"%string).
Proof.
  assert (H1 : y {| x := 0; y := 20 |} > y (pb_max smallBoundary)
               /\ x (pb_min smallBoundary) <= x {| x := 0; y := 20 |}
                  <= x (pb_max smallBoundary)) by (simpl; lra).
  assert (H2 : forall p, OnSegment p {| x := 20; y := 30 |} {| x := 0; y := 20 |} ->
                 ~ OnSegment p (topLeft smallBoundary) (topRight smallBoundary)).
  { intros p Ha Hb.
    apply OnSegment_inv in Ha. destruct Ha as [t [Ht [_ Hy]]].
    apply OnSegment_inv in Hb. destruct Hb as [u [Hu [_ Hy']]].
    simpl in Hy, Hy'. lra. }
  split; [exact getLineSegmentIntersection_contract |].
  split; [exact smallBoundary_WellFormed |].
  split; [exact H1 |]. split; [exact H2 |].
  exact (proj1 (clampingV2_throws_without_crossing getLineSegmentIntersection
                  getLineSegmentIntersection_contract
                  {| x := 20; y := 30 |} {| x := 0; y := 20 |} smallBoundary
                  smallBoundary_WellFormed) H1 H2).
Defined.

(** ** The whole-viewport limit on a camera that is not rotated *)

Lemma transform_unrotated (p c : Point) (z : R) :
  transformViewPort2WorldSpaceWithCameraAttributes p c z 0
  = {| x := x p * (1 / z) + x c; y := y p * (1 / z) + y c |}.
Proof.
  unfold transformViewPort2WorldSpaceWithCameraAttributes.
  apply point_eq; simpl; rewrite cos_0, sin_0; ring.
Qed.







(** X26: under [limitEntireViewPort], on a camera that is not rotated whose
    viewport in world units is wider or higher than the position boundary,
    no position passes the viewport check: every [setPosition] and every
    [setPositionBy] is rejected, and the camera cannot be moved. *)
Theorem setPosition_stuck_when_too_large (this : Camera) :
  limitEntireViewPort this = true ->
  rotation this = 0 ->
  zoomLevel this <> 0 ->
  x (pb_max (positionBoundary this)) - x (pb_min (positionBoundary this))
    < viewPortWidth this / zoomLevel this
  \/ y (pb_max (positionBoundary this)) - y (pb_min (positionBoundary this))
       < viewPortHeight this / zoomLevel this ->
  (forall destination, setPosition destination this = this)
  /\ (forall offset, setPositionBy offset this = this).
Proof.
  unfold rotation, zoomLevel, positionBoundary.
  intros Hl Hr _ Hbig.
  assert (Hset : forall destination, setPosition destination this = this).
  { intros destination.
    destruct (setPosition_cases destination this) as [[E _] | [_ [Hv _]]];
      [exact E | exfalso].
    specialize (Hv Hl). rewrite Hr in Hv.
    pose proof (proj1 (viewPortWithinPositionBoundary_corners _ _ _ _ _ _) Hv) as Hc.
    assert (H1 := Hc {| x := - viewPortWidth this / 2; y := viewPortHeight this / 2 |}).
    assert (H2 := Hc {| x := viewPortWidth this / 2; y := - viewPortHeight this / 2 |}).
    rewrite transform_unrotated in H1, H2.
    unfold Inside in H1, H2; simpl in H1, H2.
    destruct H1 as [[A1 A2] [A3 A4]]; [auto |].
    destruct H2 as [[B1 B2] [B3 B4]]; [auto 6 |].
    unfold Rdiv in *. destruct Hbig; lra. }
  split; [exact Hset |].
  intros offset.
  destruct (setPositionBy_as_setPosition offset this) as [d ->]. apply Hset.
Qed.

Lemma zoomedOutCamera_zoomLevel :
  zoomLevel zoomedOutCamera = 1 / 10
  /\ limitEntireViewPort zoomedOutCamera = true
  /\ rotation zoomedOutCamera = 0
  /\ positionBoundary zoomedOutCamera = defaultBoundary
  /\ viewPortWidth zoomedOutCamera = 500.
Proof.
  unfold zoomedOutCamera.
  rewrite setZoomLevel_accept by (apply withinZoomLevelBoundary_spec; simpl; lra).
  repeat split.
Defined.

Lemma setPosition_stuck_when_too_large_witness :
  limitEntireViewPort zoomedOutCamera = true
  /\ rotation zoomedOutCamera = 0
  /\ zoomLevel zoomedOutCamera <> 0
  /\ (x (pb_max (positionBoundary zoomedOutCamera))
      - x (pb_min (positionBoundary zoomedOutCamera))
      < viewPortWidth zoomedOutCamera / zoomLevel zoomedOutCamera
      \/ y (pb_max (positionBoundary zoomedOutCamera))
         - y (pb_min (positionBoundary zoomedOutCamera))
         < viewPortHeight zoomedOutCamera / zoomLevel zoomedOutCamera)
  /\ (forall destination, setPosition destination zoomedOutCamera = zoomedOutCamera)
  /\ (forall offset, setPositionBy offset zoomedOutCamera = zoomedOutCamera).
Proof.
  destruct zoomedOutCamera_zoomLevel as [Hz [Hl [Hr [Hb Hw]]]].
  assert (H3 : zoomLevel zoomedOutCamera <> 0) by (rewrite Hz; lra).
  assert (H4 : x (pb_max (positionBoundary zoomedOutCamera))
               - x (pb_min (positionBoundary zoomedOutCamera))
               < viewPortWidth zoomedOutCamera / zoomLevel zoomedOutCamera
               \/ y (pb_max (positionBoundary zoomedOutCamera))
                  - y (pb_min (positionBoundary zoomedOutCamera))
                  < viewPortHeight zoomedOutCamera / zoomLevel zoomedOutCamera).
  { left. rewrite Hb, Hw, Hz. simpl. lra. }
  split; [exact Hl |]. split; [exact Hr |]. split; [exact H3 |]. split; [exact H4 |].
  exact (setPosition_stuck_when_too_large zoomedOutCamera Hl Hr H3 H4).
Defined.

Lemma quotient_swap (n d z : R) : 0 < d -> 0 < z -> (n / d <= z <-> n / z <= d).
Proof.
  intros Hd Hz.
  assert (E1 : n = n / d * d) by (field; lra).
  assert (E2 : n = n / z * z) by (field; lra).
  split; intros H.
  - apply Rmult_le_reg_r with z; [exact Hz |]. rewrite <- E2.
    rewrite E1. rewrite Rmult_comm. apply Rmult_le_compat_l; lra.
  - apply Rmult_le_reg_r with d; [exact Hd |]. rewrite <- E1.
    rewrite E2. rewrite Rmult_comm. apply Rmult_le_compat_l; lra.
Qed.

(** X27: for a boundary of positive width and height, a positive zoom level
    is at least [getMinZoomLevel] exactly when the viewport, in world units
    at that zoom level, is no wider and no higher than the boundary. *)
Theorem getMinZoomLevel_fits (w h z : R) (b : PositionBoundary) :
  x (pb_min b) < x (pb_max b) ->
  y (pb_min b) < y (pb_max b) ->
  0 < z ->
  (getMinZoomLevel w h b <= z <->
   w / z <= x (pb_max b) - x (pb_min b) /\ h / z <= y (pb_max b) - y (pb_min b)).
Proof.
  intros Hx Hy Hz.
  assert (Hbw : 0 < x (pb_max b) - x (pb_min b)) by lra.
  assert (Hbh : 0 < y (pb_max b) - y (pb_min b)) by lra.
  rewrite <- (quotient_swap w _ z Hbw Hz), <- (quotient_swap h _ z Hbh Hz).
  unfold getMinZoomLevel.
  destruct (NumFacts.gtb_spec (w / (x (pb_max b) - x (pb_min b)))
              (h / (y (pb_max b) - y (pb_min b)))); split; intros; lra.
Qed.

Lemma getMinZoomLevel_fits_witness :
  x (pb_min defaultBoundary) < x (pb_max defaultBoundary)
  /\ y (pb_min defaultBoundary) < y (pb_max defaultBoundary)
  /\ 0 < 1
  /\ (getMinZoomLevel 500 500 defaultBoundary <= 1 <->
      500 / 1 <= x (pb_max defaultBoundary) - x (pb_min defaultBoundary)
      /\ 500 / 1 <= y (pb_max defaultBoundary) - y (pb_min defaultBoundary)).
Proof.
  assert (H1 : x (pb_min defaultBoundary) < x (pb_max defaultBoundary)) by (simpl; lra).
  assert (H2 : y (pb_min defaultBoundary) < y (pb_max defaultBoundary)) by (simpl; lra).
  assert (H3 : 0 < 1) by lra.
  split; [exact H1 |]. split; [exact H2 |]. split; [exact H3 |].
  exact (getMinZoomLevel_fits 500 500 1 defaultBoundary H1 H2 H3).
Defined.

(** X28: [transformVector2WorldSpace] turns and scales: the dot product of
    the images of two vectors is the dot product of the vectors over the
    square of the zoom level, so angles are kept and lengths are divided by
    the zoom level. *)
Theorem transformVector2WorldSpace_dotProduct (u v : Point) (this : Camera) :
  dotProduct (transformVector2WorldSpace u this) (transformVector2WorldSpace v this)
  = dotProduct u v * ((1 / zoomLevel this) * (1 / zoomLevel this)).
Proof.
  unfold transformVector2WorldSpace, dotProduct, multiplyByScalar, rotateVector, zoomLevel.
  simpl.
  pose proof (sin2_cos2 (_rotation this)) as Hsc. unfold Rsqr in Hsc.
  set (c := cos (_rotation this)) in *. set (s := sin (_rotation this)) in *.
  set (k := 1 / _zoomLevel this).
  transitivity ((x u * x v + y u * y v) * (k * k) * (s * s + c * c));
    [ring | rewrite Hsc; ring].
Qed.
